(** * github-email-js: the lookup functions of [githubEmail] and their properties

    The development follows the single source module of the package: the
    orchestration [githubEmail], the five lookups it awaits in turn, the
    regular-expression scan of the event feed and the [reduce]/[sort]/[map]
    pipeline over the commit history.  JavaScript values coming from
    [response.json()] are an inductive type, the network is a function from
    requests to responses, the Headers constructor of the host a test of
    header values, and every function runs in a small monad that threads the
    log of the requests issued and stops at the first exception. *)

From Stdlib Require Import List String Ascii ZArith Bool Arith Lia Permutation Sorted.
Import ListNotations.
Local Open Scope string_scope.
Local Open Scope list_scope.
Local Open Scope Z_scope.
Local Set Warnings "-register-all".

(** ** JavaScript values *)

(** What [JSON.parse] can return, plus [undefined] for the properties that are
    not there.  Numbers are kept as integers: the code only tests them for
    truthiness and uses them as map keys. *)
Inductive value : Type :=
| VUndefined
| VNull
| VBool (b : bool)
| VNum (n : Z)
| VStr (s : string)
| VArr (items : list value)
| VObj (fields : list (string * value)).

Inductive error : Type :=
| UserNotFoundError   (* Error('Could not find a GitHub user with the provided options. ...') *)
| TypeError           (* a property of null or undefined, a value without a primitive, a header value *)
| SyntaxError         (* response.json() on a body that is not JSON *)
| NetworkError        (* fetch() rejected *)
| OutOfFuel.          (* a loop of the model ran out of steps; shown unreachable *)

Inductive result (A : Type) : Type :=
| Ok (a : A)
| Throw (e : error).
Arguments Ok {A} a.
Arguments Throw {A} e.

Definition is_empty (s : string) : bool :=
  match s with EmptyString => true | String _ _ => false end.

(** ToBoolean *)
Definition truthy (v : value) : bool :=
  match v with
  | VUndefined | VNull => false
  | VBool b => b
  | VNum n => negb (n =? 0)
  | VStr s => negb (is_empty s)
  | VArr _ | VObj _ => true
  end.

(** [a || b] *)
Definition js_or (a b : value) : value := if truthy a then a else b.

Fixpoint assoc (k : string) (fields : list (string * value)) : option value :=
  match fields with
  | [] => None
  | (k', v) :: rest => if String.eqb k k' then Some v else assoc k rest
  end.

(** Property read [v.k] for the keys the module reads ([login], [email],
    [name], [commit], [author], [committer], [date]): none of them is
    inherited from a prototype of a parsed value, so only own properties of
    objects answer; reading from [null] or [undefined] throws. *)
Definition get (v : value) (k : string) : result value :=
  match v with
  | VUndefined | VNull => Throw TypeError
  | VObj fields => Ok (match assoc k fields with Some x => x | None => VUndefined end)
  | VBool _ | VNum _ | VStr _ | VArr _ => Ok VUndefined
  end.

(** Destructuring with a default, [const { k = {} } = v]: the default replaces
    [undefined] only. *)
Definition get_default (v : value) (k : string) : result value :=
  match get v k with
  | Ok VUndefined => Ok (VObj [])
  | r => r
  end.

(** [json[0]] on an array known to be non-empty *)
Definition first (items : list value) : value :=
  match items with
  | [] => VUndefined
  | x :: _ => x
  end.

(** SameValueZero as [Map.prototype.has] applies it to keys taken from a
    parsed payload.  [JSON.parse] allocates a fresh object for every object or
    array of the text, so two such names met at different places are never the
    same reference. *)
Definition same_value_zero (a b : value) : bool :=
  match a, b with
  | VUndefined, VUndefined => true
  | VNull, VNull => true
  | VBool x, VBool y => Bool.eqb x y
  | VNum x, VNum y => x =? y
  | VStr x, VStr y => String.eqb x y
  | _, _ => false
  end.

(** Converting a parsed value to a primitive, as [new Date(v)] does: an object
    answers through the toString it inherits unless it has a key of that name
    of its own, under which a parsed value never holds a function, and then
    the conversion throws a TypeError.  An array answers through join, which
    converts in turn each entry other than null. *)
Fixpoint to_primitive_throws (v : value) : bool :=
  match v with
  | VObj fields =>
      match assoc "toString" fields with
      | Some _ => true
      | None => false
      end
  | VArr items => existsb to_primitive_throws items
  | VUndefined | VNull | VBool _ | VNum _ | VStr _ => false
  end.

(** ** Options and result types (types.ts) *)

Inductive lookup : Type :=
| ByUsername (username : string)     (* UsernameOpts *)
| ById (id : Z).                      (* IdOpts *)

Record GitHubEmailOpts : Type := mkOpts {
  who : lookup;
  token : option string;
  repository : option string
}.

Record NameEmail : Type := mkNameEmail {
  name : value;
  email : value
}.

Definition RecentCommitsResult : Type := list NameEmail.

Record GitHubEmailResult : Type := mkResult {
  github : value;
  npm : value;
  recentCommits : RecentCommitsResult;
  recentActivity : list string
}.

(** An optional string option of the caller, read as a JavaScript value. *)
Definition opt_value (o : option string) : value :=
  match o with
  | None => VUndefined
  | Some s => VStr s
  end.

(** ** HTTP *)

(** The URLs of the module, each with the values that its template literal
    interpolates.  The conversion of these values to strings is not carried
    out, so nothing is thrown where a URL is built: a username of the options
    is a string, and a login or a repository name read from a response
    converts unless it is an object without a primitive
    ([to_primitive_throws]). *)
Inductive endpoint : Type :=
| UserById (id : Z)                           (* https://api.github.com/user/${id} *)
| Users (username : value)                    (* https://api.github.com/users/${username} *)
| NpmUser (username : value)                  (* https://r.cnpmjs.org/-/user/org.couchdb.user:${username} *)
| Events (username : value)                   (* https://api.github.com/users/${username}/events *)
| Repos (username : value)                    (* .../users/${username}/repos?type=owner&sort=pushed *)
| Commits (username : value) (repo : value).  (* .../repos/${username}/${repository}/commits *)

Record request : Type := mkRequest {
  url : endpoint;
  headers : list (string * string)
}.

(** A response: its status, the raw body as [response.text()] gives it, and
    what [response.json()] makes of the body ([None] when it is not JSON). *)
Record response : Type := mkResponse {
  status : Z;
  body_text : string;
  body_json : option value
}.

(** What a call finds around it: the network, which answers a request with a
    response or not at all, and the Headers constructor of the host, which
    accepts a header value or rejects it.  Hosts differ on the values they
    reject; Node and the current browsers reject a value with a NUL, a line
    feed or a carriage return inside. *)
Record network : Type := mkNetwork {
  answer :> request -> option response;
  accepts_header_value : string -> bool
}.

(** ** The monad of the async functions

    A computation reads the network, appends the requests it issues to the
    log and ends with a value or an exception. *)
Definition M (A : Type) : Type := network -> list request -> result A * list request.

Definition ret {A} (a : A) : M A := fun _ log => (Ok a, log).
Definition throw {A} (e : error) : M A := fun _ log => (Throw e, log).
Definition bind {A B} (m : M A) (k : A -> M B) : M B :=
  fun net log =>
    match m net log with
    | (Ok a, log') => k a net log'
    | (Throw e, log') => (Throw e, log')
    end.
Definition lift {A} (r : result A) : M A := fun _ log => (r, log).

Notation "x <- m ;; k" := (bind m (fun x => k))
  (at level 61, m at next level, right associativity).

(** [new Headers(init)]: a TypeError when the host rejects one of the values.
    The two header names of the source are accepted everywhere.  The strings
    of the model hold bytes: a value with a code point above 255, which the
    hosts reject as well, is not among them. *)
Definition new_Headers (init : list (string * string)) : M (list (string * string)) :=
  fun net log =>
    if forallb (fun h => accepts_header_value net (snd h)) init then (Ok init, log)
    else (Throw TypeError, log).

(** getGitHubAPIHeaders *)
Definition getGitHubAPIHeaders (token : option string) : M (list (string * string)) :=
  let authHeader :=
    match token with
    | Some t => if truthy (VStr t) then [("Authorization", String.append "token " t)] else []
    | None => []
    end in
  new_Headers (authHeader ++ [("Accept", "application/vnd.github.v3+json")]).

(** [await fetch(url, { headers })] *)
Definition fetch (u : endpoint) (h : list (string * string)) : M response :=
  fun net log =>
    let req := mkRequest u h in
    match net req with
    | Some r => (Ok r, log ++ [req])
    | None => (Throw NetworkError, log ++ [req])
    end.

(** [await response.json()] *)
Definition json (r : response) : M value :=
  match body_json r with
  | Some v => ret v
  | None => throw SyntaxError
  end.

Definition run {A} (m : M A) (net : network) : result A * list request := m net [].
Definition outcome {A} (m : M A) (net : network) : result A := fst (run m net).
Definition requests {A} (m : M A) (net : network) : list request := snd (run m net).

(** ** getUsername, getGitHubEmail, getNpmEmail *)

Definition getUsername (opts : GitHubEmailOpts) : M value :=
  match who opts with
  | ByUsername username => ret (VStr username)
  | ById id =>
      headers <- getGitHubAPIHeaders (token opts) ;;
      response <- fetch (UserById id) headers ;;
      if status response =? 404 then ret VNull
      else
        body <- json response ;;
        lift (get body "login")
  end.

Definition getGitHubEmail (username : value) (opts : GitHubEmailOpts) : M value :=
  if negb (truthy (opt_value (token opts))) then ret VNull
  else
    headers <- getGitHubAPIHeaders (token opts) ;;
    response <- fetch (Users username) headers ;;
    if status response =? 404 then ret VNull
    else
      body <- json response ;;
      email <- lift (get body "email") ;;
      ret (js_or email VNull).

Definition getNpmEmail (username : value) : M value :=
  response <- fetch (NpmUser username) [] ;;
  if status response =? 404 then ret VNull
  else
    body <- json response ;;
    email <- lift (get body "email") ;;
    ret (js_or email VNull).

(** ** getRecentActivityEmails *)

Infix "+++" := String.append (at level 60, right associativity).

Definition dquote : ascii := "034"%char.

(** The literal head of the regular expression of the source (quote, email,
    quote, colon, quote; then a group of non-quote characters and a closing
    quote; flags gm): the key up to the quote that opens the value. *)
Definition email_key : string :=
  String dquote ("email" +++ String dquote (":" +++ String dquote EmptyString)).

Fixpoint strip_prefix (p s : string) : option string :=
  match p with
  | EmptyString => Some s
  | String a p' =>
      match s with
      | String b s' => if Ascii.eqb a b then strip_prefix p' s' else None
      | EmptyString => None
      end
  end.

(** The capture group and the closing quote: the longest run of characters
    other than the quote, which a quote must follow; gives the run and the
    text after the closing quote. *)
Fixpoint until_quote (s : string) : option (string * string) :=
  match s with
  | EmptyString => None
  | String c s' =>
      if Ascii.eqb c dquote then Some (EmptyString, s')
      else match until_quote s' with
           | Some (v, rest) => Some (String c v, rest)
           | None => None
           end
  end.

(** The regular expression matched at the head of [s]: capture group 1 and the
    length of the whole match. *)
Definition match_here (s : string) : option (string * nat) :=
  match strip_prefix email_key s with
  | Some s1 =>
      match until_quote s1 with
      | Some (v, _) => Some (v, (String.length email_key + String.length v + 1)%nat)
      | None => None
      end
  | None => None
  end.

(** Leftmost match in [s], where [s] starts at index [pos] of the text: the
    capture and the index just after the match. *)
Fixpoint search (s : string) (pos : nat) : option (string * nat) :=
  match match_here s with
  | Some (v, len) => Some (v, (pos + len)%nat)
  | None =>
      match s with
      | EmptyString => None
      | String _ s' => search s' (S pos)
      end
  end.

Fixpoint drop (n : nat) (s : string) : string :=
  match n, s with
  | O, _ => s
  | S n', String _ s' => drop n' s'
  | S _, EmptyString => EmptyString
  end.

(** [emailRegExp.exec(text)] for the global regular expression whose
    [lastIndex] is given: the capture of the leftmost match at or after
    [lastIndex] and the new [lastIndex] (the end of the match); on failure
    [null] and [lastIndex] reset to 0. *)
Definition exec (text : string) (lastIndex : nat) : option string * nat :=
  if (String.length text <? lastIndex)%nat then (None, O)
  else
    match search (drop lastIndex text) lastIndex with
    | Some (v, e) => (Some v, e)
    | None => (None, O)
    end.

(** [if (match) { recentActivityEmails.push(match[1]); }] *)
Definition push_match (acc : list string) (m : option string) : list string :=
  match m with
  | Some v => acc ++ [v]
  | None => acc
  end.

(** [while (emailRegExp.lastIndex !== 0) { ... }], with a bound on the number
    of iterations; [None] when the bound is reached. *)
Fixpoint while_lastIndex (fuel : nat) (text : string) (lastIndex : nat)
    (acc : list string) : option (list string) :=
  if (lastIndex =? 0)%nat then Some acc
  else
    match fuel with
    | O => None
    | S fuel' =>
        let '(m, lastIndex') := exec text lastIndex in
        while_lastIndex fuel' text lastIndex' (push_match acc m)
    end.

(** The body of getRecentActivityEmails after [response.text()]. *)
Definition scanEmails (text : string) : result (list string) :=
  let '(initialMatch, lastIndex) := exec text O in
  match while_lastIndex (S (String.length text)) text lastIndex
          (push_match [] initialMatch) with
  | Some emails => Ok emails
  | None => Throw OutOfFuel
  end.

Definition getRecentActivityEmails (username : value) (opts : GitHubEmailOpts)
    : M (list string) :=
  headers <- getGitHubAPIHeaders (token opts) ;;
  response <- fetch (Events username) headers ;;
  if status response =? 404 then ret []
  else lift (scanEmails (body_text response)).

Definition q (s : string) : string := String dquote (s +++ String dquote EmptyString).

(** ** Array.prototype.sort

    The comparator of the source never answers 0, so the order it yields is
    the engine's.  The model is the engine Node runs: V8's array-sort.tq, for
    arrays of fewer than 64 elements (one page of commits gives at most 60
    identities), where the whole array is one run: [CountAndMakeRun] finds
    the initial run and reverses it when it is strictly descending, then
    [BinaryInsertionSort] inserts the remaining elements one by one.  Every
    comparison is [comparefn later earlier], tested for [< 0]. *)
Section ArraySort.
Context {A : Type} (comparefn : A -> A -> Z).

(** The loop of CountAndMakeRun after the first two elements: how many more
    elements continue the run. *)
Fixpoint run_tail (isDescending : bool) (previousElement : A) (rest : list A) : nat :=
  match rest with
  | [] => O
  | currentElement :: rest' =>
      let order := comparefn currentElement previousElement in
      if (if isDescending then 0 <=? order else order <? 0) then O
      else S (run_tail isDescending currentElement rest')
  end.

(** The initial run, reversed if it was descending, and the elements after it. *)
Definition CountAndMakeRun (l : list A) : list A * list A :=
  match l with
  | [] => ([], [])
  | [x] => ([x], [])
  | elementHigh :: elementLow :: rest =>
      let order := comparefn elementLow elementHigh in
      let isDescending := order <? 0 in
      let runLength := (2 + run_tail isDescending elementLow rest)%nat in
      let r := firstn runLength l in
      (if isDescending then rev r else r, skipn runLength l)
  end.

(** The binary search of BinaryInsertionSort for the place of [pivot] in the
    sorted prefix; [None] if the bound on the iterations is reached or an
    index falls outside the prefix. *)
Fixpoint find_insertion (fuel : nat) (sorted : list A) (pivot : A)
    (left right : nat) : option nat :=
  if (right <=? left)%nat then Some left
  else
    match fuel with
    | O => None
    | S fuel' =>
        let mid := (left + Nat.div2 (right - left))%nat in
        match nth_error sorted mid with
        | Some x =>
            if comparefn pivot x <? 0
            then find_insertion fuel' sorted pivot left mid
            else find_insertion fuel' sorted pivot (S mid) right
        | None => None
        end
    end.

(** Moving the elements right of [left] one place up and storing the pivot. *)
Definition insert_at (sorted : list A) (left : nat) (pivot : A) : list A :=
  firstn left sorted ++ pivot :: skipn left sorted.

Fixpoint BinaryInsertionSort (sorted rest : list A) : option (list A) :=
  match rest with
  | [] => Some sorted
  | pivot :: rest' =>
      match find_insertion (List.length sorted) sorted pivot O (List.length sorted) with
      | Some pos => BinaryInsertionSort (insert_at sorted pos pivot) rest'
      | None => None
      end
  end.

Definition Array_sort (l : list A) : option (list A) :=
  if (List.length l <? 2)%nat then Some l
  else let '(r, rest) := CountAndMakeRun l in BinaryInsertionSort r rest.
End ArraySort.

(** ** The result monad of the synchronous code *)

Definition rbind {A B} (r : result A) (k : A -> result B) : result B :=
  match r with
  | Ok a => k a
  | Throw e => Throw e
  end.

Notation "x <~ r ;; k" := (rbind r (fun x => k))
  (at level 61, r at next level, right associativity).

(** [array.reduce(f, init)] with a callback that may throw *)
Fixpoint reduce {A B} (f : B -> A -> result B) (l : list A) (acc : B) : result B :=
  match l with
  | [] => Ok acc
  | x :: l' => acc' <~ f acc x ;; reduce f l' acc'
  end.

(** ** The commit history: getRepository, getRecentCommitsEmails *)

(** The values of the map built by the reduce: [{ name, email, date }];
    the date is the time value of the Date object, [None] for Invalid Date. *)
Record CommitIdentity : Type := mkIdentity {
  id_name : value;
  id_email : value;
  id_date : option Z
}.

(** [Map<string, { name, email, date }>]: the entries in insertion order. *)
Definition CommitsMap : Type := list (value * CommitIdentity).

Definition Map_has (m : CommitsMap) (k : value) : bool :=
  existsb (fun kv => same_value_zero (fst kv) k) m.

Fixpoint Map_set (m : CommitsMap) (k : value) (v : CommitIdentity) : CommitsMap :=
  match m with
  | [] => [(k, v)]
  | (k', v') :: m' =>
      if same_value_zero k' k then (k', v) :: m' else (k', v') :: Map_set m' k v
  end.

Definition Map_values (m : CommitsMap) : list CommitIdentity := map snd m.

(** [a.date > b.date] on Date objects: the comparison of two time values,
    false as soon as one of them is NaN. *)
Definition date_gt (a b : option Z) : bool :=
  match a, b with
  | Some x, Some y => y <? x
  | _, _ => false
  end.

(** [(a, b) => a.date > b.date ? -1 : 1] *)
Definition byDate (a b : CommitIdentity) : Z :=
  if date_gt (id_date a) (id_date b) then -1 else 1.

(** [({ name, email }) => ({ name, email })] *)
Definition strip (e : CommitIdentity) : NameEmail :=
  {| name := id_name e; email := id_email e |}.

Definition getRepository (username : value) (opts : GitHubEmailOpts) : M value :=
  if truthy (opt_value (repository opts)) then ret (opt_value (repository opts))
  else
    headers <- getGitHubAPIHeaders (token opts) ;;
    response <- fetch (Repos username) headers ;;
    if status response =? 404 then ret VNull
    else
      body <- json response ;;
      match body with
      | VArr (x :: rest) => lift (get (first (x :: rest)) "name")
      | _ => ret VNull
      end.

Section Lookups.
(** The time value, in milliseconds, of the Date that the host constructs
    from a parsed value that has a primitive; [None] for Invalid Date. *)
Variable new_Date : value -> option Z.

(** [new Date(d)]: the value is converted to a primitive first. *)
Definition construct_Date (d : value) : result (option Z) :=
  if to_primitive_throws d then Throw TypeError else Ok (new_Date d).

(** [if (n && !acc.has(n)) { acc.set(n, { name: n, email: e, date: new Date(d) }); }] *)
Definition record_identity (acc : CommitsMap) (n e d : value) : result CommitsMap :=
  if truthy n && negb (Map_has acc n)
  then
    date <~ construct_Date d ;;
    Ok (Map_set acc n {| id_name := n; id_email := e; id_date := date |})
  else Ok acc.

(** The callback of the reduce. *)
Definition reducer (acc : CommitsMap) (commitJson : value) : result CommitsMap :=
  commit <~ get_default commitJson "commit" ;;
  author <~ get_default commit "author" ;;
  committer <~ get_default commit "committer" ;;
  authorName <~ get author "name" ;;
  authorEmail <~ get author "email" ;;
  authorDate <~ get author "date" ;;
  committerName <~ get committer "name" ;;
  committerEmail <~ get committer "email" ;;
  committerDate <~ get committer "date" ;;
  acc <~ record_identity acc authorName authorEmail authorDate ;;
  acc <~ record_identity acc committerName committerEmail committerDate ;;
  Ok acc.

Definition commitsEmailsMap (items : list value) : result CommitsMap :=
  reduce reducer items [].

(** [[...commitsEmailsMap.values()].sort(...).map(...)] *)
Definition recentCommitsResult (m : CommitsMap) : result RecentCommitsResult :=
  match Array_sort byDate (Map_values m) with
  | Some sorted => Ok (map strip sorted)
  | None => Throw OutOfFuel
  end.

Definition aggregate (items : list value) : result RecentCommitsResult :=
  m <~ commitsEmailsMap items ;; recentCommitsResult m.

Definition getRecentCommitsEmails (username : value) (opts : GitHubEmailOpts)
    : M RecentCommitsResult :=
  repository <- getRepository username opts ;;
  if negb (truthy repository) then ret []
  else
    headers <- getGitHubAPIHeaders (token opts) ;;
    response <- fetch (Commits username repository) headers ;;
    if status response =? 404 then ret []
    else
      body <- json response ;;
      match body with
      | VArr (x :: rest) => lift (aggregate (x :: rest))
      | _ => ret []
      end.

(** ** githubEmail *)

Definition githubEmail (opts : GitHubEmailOpts) : M GitHubEmailResult :=
  username <- getUsername opts ;;
  if negb (truthy username) then throw UserNotFoundError
  else
    github <- getGitHubEmail username opts ;;
    npm <- getNpmEmail username ;;
    recentCommits <- getRecentCommitsEmails username opts ;;
    recentActivity <- getRecentActivityEmails username opts ;;
    ret {| github := github; npm := npm;
           recentCommits := recentCommits; recentActivity := recentActivity |}.
End Lookups.

(** ** A Date constructor for the worked examples

    [Date_of] agrees with the ECMAScript Date constructor on the values the
    examples feed it: [undefined] (Invalid Date), [null], booleans, integers
    within the time range, and strings in the two ISO forms
    YYYY-MM-DD and YYYY-MM-DDTHH:MM:SSZ (the form of the commits API) with a
    valid calendar date.  Every other value is read as Invalid Date here;
    the theorems below hold for any constructor. *)

Definition digit (c : ascii) : option Z :=
  let n := Z.of_nat (nat_of_ascii c) in
  if (48 <=? n) && (n <=? 57) then Some (n - 48) else None.

Fixpoint digits (n : nat) (s : string) (acc : Z) : option (Z * string) :=
  match n with
  | O => Some (acc, s)
  | S n' =>
      match s with
      | String c s' =>
          match digit c with
          | Some d => digits n' s' (10 * acc + d)
          | None => None
          end
      | EmptyString => None
      end
  end.

Definition expect (c : ascii) (s : string) : option string :=
  match s with
  | String c' s' => if Ascii.eqb c c' then Some s' else None
  | EmptyString => None
  end.

Definition obind {A B} (o : option A) (k : A -> option B) : option B :=
  match o with
  | Some a => k a
  | None => None
  end.

Definition leap (y : Z) : bool :=
  ((y mod 4 =? 0) && negb (y mod 100 =? 0)) || (y mod 400 =? 0).

Definition days_in_month (y m : Z) : Z :=
  if m =? 2 then (if leap y then 29 else 28)
  else if (m =? 4) || (m =? 6) || (m =? 9) || (m =? 11) then 30 else 31.

(** Days from 1970-01-01 to the given day of the proleptic Gregorian calendar. *)
Definition days_from_civil (y m d : Z) : Z :=
  let y' := if m <=? 2 then y - 1 else y in
  let era := y' / 400 in
  let yoe := y' - era * 400 in
  let doy := (153 * (if 2 <? m then m - 3 else m + 9) + 2) / 5 + d - 1 in
  let doe := yoe * 365 + yoe / 4 - yoe / 100 + doy in
  era * 146097 + doe - 719468.

Definition parse_time (s : string) : option Z :=
  match s with
  | EmptyString => Some 0
  | _ =>
      obind (expect "T" s) (fun s =>
      obind (digits 2 s 0) (fun '(h, s) =>
      obind (expect ":" s) (fun s =>
      obind (digits 2 s 0) (fun '(mi, s) =>
      obind (expect ":" s) (fun s =>
      obind (digits 2 s 0) (fun '(se, s) =>
      obind (expect "Z" s) (fun s =>
      if is_empty s && (h <? 24) && (mi <? 60) && (se <? 60)
      then Some (((h * 60 + mi) * 60 + se) * 1000) else None)))))))
  end.

Definition parse_iso (s : string) : option Z :=
  obind (digits 4 s 0) (fun '(y, s) =>
  obind (expect "-" s) (fun s =>
  obind (digits 2 s 0) (fun '(m, s) =>
  obind (expect "-" s) (fun s =>
  obind (digits 2 s 0) (fun '(d, s) =>
  if (1 <=? m) && (m <=? 12) && (1 <=? d) && (d <=? days_in_month y m)
  then obind (parse_time s) (fun t => Some (days_from_civil y m d * 86400000 + t))
  else None))))).

Definition Date_of (v : value) : option Z :=
  match v with
  | VUndefined => None
  | VNull => Some 0
  | VBool b => Some (if b then 1 else 0)
  | VNum n => if Z.abs n <=? 8640000000000000 then Some n else None
  | VStr s => parse_iso s
  | VArr _ | VObj _ => None
  end.

(** ** Reference definitions and example data *)

(** The field of a parsed object, [undefined] when it is not there. *)
Definition field (fields : list (string * value)) (k : string) : value :=
  match assoc k fields with
  | Some v => v
  | None => VUndefined
  end.

(** The object literal that getGitHubAPIHeaders hands to the constructor. *)
Definition github_headers (token : option string) : list (string * string) :=
  match token with
  | Some t => if truthy (VStr t) then [("Authorization", "token " +++ t)] else []
  | None => []
  end ++ [("Accept", "application/vnd.github.v3+json")].

(** The host accepts the headers that the token gives. *)
Definition headers_accepted (net : network) (token : option string) : bool :=
  forallb (fun h => accepts_header_value net (snd h)) (github_headers token).

(** A check of header values for the examples: no NUL, line feed or carriage
    return in the value.  It agrees with Node and the current browsers on
    the tokens of the examples. *)
Fixpoint header_value_ok (s : string) : bool :=
  match s with
  | EmptyString => true
  | String c s' =>
      negb (Ascii.eqb c "000"%char || Ascii.eqb c "010"%char || Ascii.eqb c "013"%char)
      && header_value_ok s'
  end.

(** The lookup asked [req] and the network answered [r]. *)
Definition answered {A} (m : M A) (net : network) (req : request) (r : response) : Prop :=
  In req (requests m net) /\ net req = Some r.

Definition example_net (answers : list (endpoint -> option response)) : network :=
  mkNetwork
    (fun req =>
       (fix pick (l : list (endpoint -> option response)) :=
          match l with
          | [] => None
          | f :: l' => match f (url req) with Some r => Some r | None => pick l' end
          end) answers)
    header_value_ok.

Definition profile_of_octocat (u : endpoint) : option response :=
  match u with
  | Users (VStr "octocat") =>
      Some (mkResponse 200 EmptyString
              (Some (VObj [("login", VStr "octocat"); ("email", VStr "octocat@github.com")])))
  | _ => None
  end.

Definition repos_request (username : value) (opts : GitHubEmailOpts) : request :=
  mkRequest (Repos username) (github_headers (token opts)).

Definition newest_pushed (u : endpoint) : option response :=
  match u with
  | Repos (VStr "octocat") =>
      Some (mkResponse 200 EmptyString
              (Some (VArr [VObj [("name", VStr "hello-world")]; VObj [("name", VStr "spoon-knife")]])))
  | _ => None
  end.

(** The identities of the commits in the order the reduce meets them: for
    each commit of the array the author, then the committer. *)
Section Identities.
Variable new_Date : value -> option Z.

Definition identity_of (person : value) : result CommitIdentity :=
  n <~ get person "name" ;;
  e <~ get person "email" ;;
  d <~ get person "date" ;;
  date <~ construct_Date new_Date d ;;
  Ok {| id_name := n; id_email := e; id_date := date |}.

Definition commit_identities (commitJson : value) : result (list CommitIdentity) :=
  commit <~ get_default commitJson "commit" ;;
  author <~ get_default commit "author" ;;
  committer <~ get_default commit "committer" ;;
  a <~ identity_of author ;;
  c <~ identity_of committer ;;
  Ok [a; c].

Fixpoint identities (items : list value) : result (list CommitIdentity) :=
  match items with
  | [] => Ok []
  | x :: rest =>
      l <~ commit_identities x ;;
      ls <~ identities rest ;;
      Ok (l ++ ls)
  end.
End Identities.

(** Recording an identity that is already built. *)
Definition record_id (acc : CommitsMap) (i : CommitIdentity) : CommitsMap :=
  if truthy (id_name i) && negb (Map_has acc (id_name i))
  then Map_set acc (id_name i) i
  else acc.

(** Example payloads of the commits endpoint. *)
Definition person (n e d : string) : value :=
  VObj [("name", VStr n); ("email", VStr e); ("date", VStr d)].

Definition commit_of (author committer : value) : value :=
  VObj [("sha", VStr "6dcb09b5b57875f334f61aebed695e2e4193db5e");
        ("commit", VObj [("author", author); ("committer", committer);
                         ("message", VStr "Fix all the bugs")])].

Definition authored_by (author : value) : value :=
  VObj [("commit", VObj [("author", author)])].

(** Testable property 3 of the specification: two commits by the same name,
    newest first, with different emails. *)
Definition same_name_twice : list value :=
  [authored_by (VObj [("name", VStr "A"); ("email", VStr "a1")]);
   authored_by (VObj [("name", VStr "A"); ("email", VStr "a2")])].

(** ** The email values of a raw text, declaratively *)

Fixpoint quote_free (s : string) : Prop :=
  match s with
  | EmptyString => True
  | String c s' => c <> dquote /\ quote_free s'
  end.

(** An occurrence of the key at index [n] of [s]: the key, then later a
    closing quote. *)
Definition occurs_at (s : string) (n : nat) : Prop :=
  exists g v r, s = g +++ email_key +++ v +++ String dquote r /\ String.length g = n.

(** [Emails s vs]: reading [s] from left to right, [vs] are the values under
    the key, one per occurrence, each running from the key to the next quote,
    the reading resuming after that quote. *)
Inductive Emails : string -> list string -> Prop :=
| Emails_nil : forall s,
    (forall n, ~ occurs_at s n) -> Emails s []
| Emails_cons : forall g v r vs,
    quote_free v ->
    (forall n, occurs_at (g +++ email_key +++ v +++ String dquote r) n -> (String.length g <= n)%nat) ->
    Emails r vs ->
    Emails (g +++ email_key +++ v +++ String dquote r) (v :: vs).

Definition events_request (username : value) (opts : GitHubEmailOpts) : request :=
  mkRequest (Events username) (github_headers (token opts)).

(** Example feed of the events endpoint: testable property 5, the same
    email under the key twice. *)
Definition feed_twice : string :=
  "[{" +++ q "email" +++ ":" +++ q "x" +++ "},{" +++ q "email" +++ ":" +++ q "x" +++ "}]".

Definition events_of_octocat (u : endpoint) : option response :=
  match u with
  | Events (VStr "octocat") => Some (mkResponse 200 feed_twice None)
  | _ => None
  end.

(** The timestamp of an identity whose date is valid. *)
Definition time_of (e : CommitIdentity) : Z :=
  match id_date e with
  | Some t => t
  | None => 0
  end.

Definition dated (e : CommitIdentity) : Prop := id_date e <> None.

(** Testable property 4 of the specification: three identities whose
    timestamps are 2020, 2023 and 2021. *)
Definition three_dates : list value :=
  [authored_by (person "A" "a@example.com" "2020-01-01T00:00:00Z");
   authored_by (person "B" "b@example.com" "2023-01-01T00:00:00Z");
   authored_by (person "C" "c@example.com" "2021-01-01T00:00:00Z")].

(** One commit whose author and committer differ and carry the same date,
    followed by an older and a newer commit. *)
Definition tied_dates : list value :=
  [commit_of (person "A" "a@example.com" "2021-01-01T00:00:00Z")
             (person "B" "b@example.com" "2021-01-01T00:00:00Z");
   authored_by (person "C" "c@example.com" "2020-01-01T00:00:00Z");
   authored_by (person "D" "d@example.com" "2021-01-01T00:00:00Z")].

(** An identity without a date between two dated ones. *)
Definition undated_between : list value :=
  [authored_by (person "A" "a@example.com" "2020-01-01T00:00:00Z");
   authored_by (VObj [("name", VStr "B"); ("email", VStr "b@example.com")]);
   authored_by (person "C" "c@example.com" "2023-01-01T00:00:00Z")].

Definition tied_map : CommitsMap :=
  [(VStr "A", mkIdentity (VStr "A") (VStr "a@example.com") (Some 1609459200000));
   (VStr "B", mkIdentity (VStr "B") (VStr "b@example.com") (Some 1609459200000));
   (VStr "C", mkIdentity (VStr "C") (VStr "c@example.com") (Some 1577836800000));
   (VStr "D", mkIdentity (VStr "D") (VStr "d@example.com") (Some 1609459200000))].

(** ** The shape of a commit entry that the callback can read *)

Definition not_null (v : value) : bool :=
  match v with
  | VNull => false
  | _ => true
  end.

(** The property [k] of a value that is neither null nor undefined. *)
Definition prop (v : value) (k : string) : value :=
  match v with
  | VObj fields => field fields k
  | _ => VUndefined
  end.

Definition or_empty_object (v : value) : value :=
  match v with
  | VUndefined => VObj []
  | _ => v
  end.

(** No null where the callback destructures: the entry, its commit, the
    commit's author and committer.  (An entry of a parsed array is never
    undefined.) *)
Definition shaped_commit (x : value) : bool :=
  match x with
  | VNull | VUndefined => false
  | _ =>
      let commit := or_empty_object (prop x "commit") in
      not_null commit
      && not_null (prop commit "author")
      && not_null (prop commit "committer")
  end.

(** The dates of the author and of the committer have a primitive. *)
Definition convertible_dates (x : value) : bool :=
  let commit := or_empty_object (prop x "commit") in
  negb (to_primitive_throws (prop (or_empty_object (prop commit "author")) "date"))
  && negb (to_primitive_throws (prop (or_empty_object (prop commit "committer")) "date")).

(** An entry that the callback gets through whatever the map holds. *)
Definition readable_commit (x : value) : bool :=
  shaped_commit x && convertible_dates x.

(** ** Requests of the lookups and answers that are read without exception *)

Definition user_by_id_request (id : Z) (opts : GitHubEmailOpts) : request :=
  mkRequest (UserById id) (github_headers (token opts)).

Definition users_request (username : value) (opts : GitHubEmailOpts) : request :=
  mkRequest (Users username) (github_headers (token opts)).

Definition npm_request (username : value) : request :=
  mkRequest (NpmUser username) [].

Definition commits_request (username repo : value) (opts : GitHubEmailOpts) : request :=
  mkRequest (Commits username repo) (github_headers (token opts)).

(** A body that the lookup of the endpoint reads without an exception: JSON
    where JSON is parsed, no null where a property is read, and no object
    with a toString key of its own where a string or a date is made of a
    value (the name of the first repository, which goes into the next URL,
    and the dates of the commits). *)
Definition body_ok (u : endpoint) (r : response) : Prop :=
  match u with
  | UserById _ | Users _ | NpmUser _ =>
      exists v, body_json r = Some v /\ not_null v = true /\ v <> VUndefined
  | Events _ => True
  | Repos _ =>
      exists v, body_json r = Some v
                /\ forall x rest, v = VArr (x :: rest) ->
                     not_null x = true /\ x <> VUndefined
                     /\ to_primitive_throws (prop x "name") = false
  | Commits _ _ =>
      exists v, body_json r = Some v
                /\ forall items, v = VArr items -> forallb readable_commit items = true
  end.

(** Every request gets a response, which is a 404 or has a body that its
    lookup reads without an exception. *)
Definition well_answered (net : network) : Prop :=
  forall req, exists r, net req = Some r /\ (status r = 404 \/ body_ok (url req) r).

(** The id lookup is answered 403 with the body of a rate-limit error. *)
Definition rate_limited (u : endpoint) : option response :=
  match u with
  | UserById _ =>
      Some (mkResponse 403 EmptyString
              (Some (VObj [("message", VStr "API rate limit exceeded")])))
  | _ => None
  end.

(** A network that answers every kind of request: a profile with an email,
    no registry user, the feed of [feed_twice], a list of repositories and
    the commits of [tied_dates]. *)
Definition answers_all : network :=
  mkNetwork (fun req =>
    match url req with
    | UserById _ =>
        Some (mkResponse 200 EmptyString (Some (VObj [("login", VStr "octocat")])))
    | Users _ =>
        Some (mkResponse 200 EmptyString
                (Some (VObj [("login", VStr "octocat"); ("email", VStr "octocat@github.com")])))
    | NpmUser _ => Some (mkResponse 404 EmptyString None)
    | Events _ => Some (mkResponse 200 feed_twice None)
    | Repos _ =>
        Some (mkResponse 200 EmptyString (Some (VArr [VObj [("name", VStr "hello-world")]])))
    | Commits _ _ => Some (mkResponse 200 EmptyString (Some (VArr tied_dates)))
    end) header_value_ok.

(** The registry mirror answers 502 with a page that is not JSON; the other
    endpoints answer as in [answers_all]. *)
Definition bad_gateway : string := "<html><body><h1>502 Bad Gateway</h1></body></html>".

Definition registry_down : network :=
  mkNetwork (fun req =>
    match url req with
    | NpmUser _ => Some (mkResponse 502 bad_gateway None)
    | _ => answers_all req
    end) header_value_ok.

(** The answers of [answers_all], except where [f] answers. *)
Definition answers_but (f : endpoint -> option response) : network :=
  mkNetwork
    (fun req =>
       match f (url req) with
       | Some r => Some r
       | None => answers_all req
       end)
    header_value_ok.

(** The registry mirror answers 200 with the JSON body null. *)
Definition registry_null (u : endpoint) : option response :=
  match u with
  | NpmUser _ => Some (mkResponse 200 EmptyString (Some VNull))
  | _ => None
  end.

(** The one commit of the answer has an author whose date is an object with
    a toString key of its own. *)
Definition commits_without_primitive (u : endpoint) : option response :=
  match u with
  | Commits _ _ =>
      Some (mkResponse 200 EmptyString
              (Some (VArr [authored_by
                             (VObj [("name", VStr "A");
                                    ("date", VObj [("toString", VNull)])])])))
  | _ => None
  end.

(** ** What the reduce keeps *)

(** What holds of the map after the identities [seen] have been met: every
    entry is the first identity of [seen] with its name, entries come in the
    order of these first occurrences, and every truthy primitive name met is
    a key. *)
Definition first_wins (seen : list CommitIdentity) (m : CommitsMap) : Prop :=
  forall m1 k e m2,
    m = m1 ++ (k, e) :: m2 ->
    k = id_name e /\ truthy k = true /\
    exists before after,
      seen = before ++ e :: after
      /\ (forall i, In i before -> same_value_zero (id_name i) k = false)
      /\ (forall k' e', In (k', e') m1 -> In e' before).

Definition all_recorded (seen : list CommitIdentity) (m : CommitsMap) : Prop :=
  forall i,
    In i seen -> truthy (id_name i) = true ->
    same_value_zero (id_name i) (id_name i) = true ->
    Map_has m (id_name i) = true.

(** An entry of the map whose identity has a truthy name. *)
Definition named (kv : value * CommitIdentity) : Prop := truthy (id_name (snd kv)) = true.

(** ** Properties of computations *)

(** The result of a computation does not depend on the log it starts from,
    and the log only grows. *)
Definition log_independent {A} (m : M A) : Prop :=
  forall net log, m net log = (fst (m net []), log ++ snd (m net [])).

(** Computations that never throw [e]. *)
Definition never_throws {A} (e : error) (m : M A) : Prop :=
  forall net log, fst (m net log) <> Throw e.

(** ** Sorting by a key *)

(** [a] may stand before [b] in descending order of the keys. *)
Definition desc {A} (key : A -> Z) (a b : A) : Prop := key b <= key a.

Definition asc_strict {A} (key : A -> Z) (a b : A) : Prop := key a < key b.

Definition has_key {A} (key : A -> Z) (t : Z) (x : A) : bool := key x =? t.

(** [out] is [input] sorted by descending key, elements of equal key in
    their order of [input]. *)
Definition stable_desc {A} (key : A -> Z) (out input : list A) : Prop :=
  Permutation out input
  /\ StronglySorted (desc key) out
  /\ (forall t, filter (has_key key t) out = filter (has_key key t) input).

(** The run that CountAndMakeRun detects: consecutive elements answer the
    comparator the same way as the first two. *)
Definition follows {A} (comparefn : A -> A -> Z) (d : bool) (previous current : A) : Prop :=
  (comparefn current previous <? 0) = d.

(** Every endpoint answers 404 with the body of a not-found error. *)
Definition not_found : network :=
  mkNetwork
    (fun _ => Some (mkResponse 404 EmptyString (Some (VObj [("message", VStr "Not Found")]))))
    header_value_ok.

Definition octocat : value := VStr "octocat".

Definition with_token : GitHubEmailOpts := mkOpts (ByUsername "octocat") (Some "t0k3n") None.

Definition without_token : GitHubEmailOpts := mkOpts (ByUsername "octocat") None None.

Definition with_empty_override : GitHubEmailOpts :=
  mkOpts (ByUsername "octocat") None (Some EmptyString).

(** A token with a line feed inside. *)
Definition broken_token : string := "t0k" +++ String "010"%char "3n".

Definition with_broken_token : GitHubEmailOpts :=
  mkOpts (ByUsername "octocat") (Some broken_token) None.

(** ** Further example data *)

Definition registry_of_octocat (u : endpoint) : option response :=
  match u with
  | NpmUser (VStr "octocat") =>
      Some (mkResponse 200 EmptyString
              (Some (VObj [("name", VStr "octocat"); ("email", VStr "octocat@nowhere.com")])))
  | _ => None
  end.

Definition by_id : GitHubEmailOpts := mkOpts (ById 583231) None None.

Definition with_override : GitHubEmailOpts :=
  mkOpts (ByUsername "octocat") None (Some "linguist").

(** The first repository of the list has no name. *)
Definition nameless_repository (u : endpoint) : option response :=
  match u with
  | Repos _ =>
      Some (mkResponse 200 EmptyString (Some (VArr [VObj [("id", VNum 1296269)]])))
  | _ => None
  end.

Definition commits_of_linguist (u : endpoint) : option response :=
  match u with
  | Commits _ (VStr "linguist") => Some (mkResponse 200 EmptyString (Some (VArr three_dates)))
  | _ => None
  end.

(** ** Properties of the requests of a call *)

(** Every request is answered with a 404. *)
Definition all_not_found (net : network) : Prop :=
  forall req, exists r, net req = Some r /\ status r = 404.

(** A request that the lookups of the user [u] may issue on [net]. *)
Definition request_of (opts : GitHubEmailOpts) (net : network) (u : value)
    (req : request) : Prop :=
  (req = users_request u opts /\ truthy (opt_value (token opts)) = true)
  \/ req = npm_request u
  \/ (req = repos_request u opts /\ truthy (opt_value (repository opts)) = false)
  \/ (exists repo,
        outcome (getRepository u opts) net = Ok repo
        /\ truthy repo = true /\ req = commits_request u repo opts)
  \/ req = events_request u opts.

(** The endpoint concerns the user [u]. *)
Definition about (u : value) (e : endpoint) : Prop :=
  match e with
  | UserById _ => False
  | Users x | NpmUser x | Events x | Repos x | Commits x _ => x = u
  end.

(** How many requests a call may issue at most: the id lookup, the profile
    when there is a token, the registry, the list of repositories when there
    is no override, the commits and the events. *)
Definition request_budget (opts : GitHubEmailOpts) : nat :=
  (match who opts with ById _ => 1 | ByUsername _ => 0 end)
  + (if truthy (opt_value (token opts)) then 1 else 0)
  + 1
  + (if truthy (opt_value (repository opts)) then 0 else 1)
  + 1
  + 1.

(** The same options, for the username [s]. *)
Definition for_username (opts : GitHubEmailOpts) (s : string) : GitHubEmailOpts :=
  mkOpts (ByUsername s) (token opts) (repository opts).

Fixpoint total_length (vs : list string) : nat :=
  match vs with
  | [] => O
  | v :: vs' => (String.length v + total_length vs')%nat
  end.

(** A commit entry without the [commit] object, and one whose author has an
    empty name. *)
Definition bare_entry : value := VObj [("sha", VStr "7fd1a60b01f91b314f59955a4e4d4e80d8edf11d")].

Definition unnamed_author : value :=
  authored_by (VObj [("name", VStr EmptyString); ("email", VStr "nobody@example.com")]).

(** The map of [three_dates] read newest first. *)
Definition newest_first_map : CommitsMap :=
  [(VStr "B", mkIdentity (VStr "B") (VStr "b@example.com") (Some 1672531200000));
   (VStr "C", mkIdentity (VStr "C") (VStr "c@example.com") (Some 1609459200000));
   (VStr "A", mkIdentity (VStr "A") (VStr "a@example.com") (Some 1577836800000))].

(** On the network [net], the computation never throws [e]. *)
Definition avoids {A} (net : network) (e : error) (m : M A) : Prop :=
  forall log, fst (m net log) <> Throw e.

(** Every request is answered. *)
Definition always_answers (net : network) : Prop :=
  forall req, net req <> None.

(** Every answer that is parsed has a JSON body: every answer other than a
    404, the events feed apart, which is read as text. *)
Definition answers_json (net : network) : Prop :=
  forall req r,
    net req = Some r ->
    (forall u, url req <> Events u) ->
    status r = 404 \/ body_json r <> None.
(** * Properties *)

Example scan_twice :
  scanEmails ("[{" +++ q "email" +++ ":" +++ q "x" +++ "},{" +++ q "email" +++ ":" +++ q "x" +++ "}]")
  = Ok ["x"; "x"].
Proof. reflexivity. Qed.

Example scan_none : scanEmails ("[{" +++ q "login" +++ ":" +++ q "x" +++ "}]") = Ok [].
Proof. reflexivity. Qed.

Example Date_of_2020 : Date_of (VStr "2020-01-01T00:00:00Z") = Some 1577836800000.
Proof. reflexivity. Qed.

Example Date_of_2023 : Date_of (VStr "2023-01-01") = Some 1672531200000.
Proof. reflexivity. Qed.

Example Date_of_2021 : Date_of (VStr "2021-06-15T12:30:45Z") = Some 1623760245000.
Proof. reflexivity. Qed.

Ltac unfold_M :=
  repeat (progress (cbv beta iota delta
                      [outcome requests run bind ret throw lift json fetch] in *;
                    simpl in *)).

(** ** The headers of a GitHub request *)

Lemma getGitHubAPIHeaders_eq : forall tok net log,
  getGitHubAPIHeaders tok net log
  = if headers_accepted net tok then (Ok (github_headers tok), log)
    else (Throw TypeError, log).
Proof.
  intros [t|] net log;
    unfold getGitHubAPIHeaders, new_Headers, headers_accepted, github_headers;
    [destruct (truthy (VStr t))|]; reflexivity.
Qed.

(** Building the headers and asking: nothing is asked when the host rejects
    the headers. *)
Lemma headers_then_fetch : forall B tok u (k : response -> M B) net log,
  (headers <- getGitHubAPIHeaders tok ;; response <- fetch u headers ;; k response) net log
  = if headers_accepted net tok
    then match net (mkRequest u (github_headers tok)) with
         | Some r => k r net (log ++ [mkRequest u (github_headers tok)])
         | None => (Throw NetworkError, log ++ [mkRequest u (github_headers tok)])
         end
    else (Throw TypeError, log).
Proof.
  intros B tok u k net log.
  unfold bind at 1. rewrite getGitHubAPIHeaders_eq.
  destruct (headers_accepted net tok); [|reflexivity].
  unfold bind, fetch.
  destruct (net _); reflexivity.
Qed.

(** ** Username resolution *)

(** C7.  A request that carries a username resolves to that username,
    unchanged, and the resolution issues no request: the log stays empty
    whatever the network would answer. *)
Theorem getUsername_passthrough :
  forall (username : string) (tok repo : option string) (net : network),
    run (getUsername (mkOpts (ByUsername username) tok repo)) net
    = (Ok (VStr username), []).
Proof.
  intros username tok repo net.
  unfold getUsername; simpl.
  reflexivity.
Qed.

Lemma getUsername_asks :
  forall id opts (net : network),
    who opts = ById id ->
    run (getUsername opts) net
    = if headers_accepted net (token opts)
      then match net (user_by_id_request id opts) with
           | None => (Throw NetworkError, [user_by_id_request id opts])
           | Some r =>
               if status r =? 404 then (Ok VNull, [user_by_id_request id opts])
               else match body_json r with
                    | None => (Throw SyntaxError, [user_by_id_request id opts])
                    | Some body => (get body "login", [user_by_id_request id opts])
                    end
           end
      else (Throw TypeError, []).
Proof.
  intros id opts net Hwho.
  unfold getUsername, run. rewrite Hwho. rewrite headers_then_fetch.
  fold (user_by_id_request id opts).
  destruct (headers_accepted net (token opts)); [|reflexivity].
  destruct (net _) as [r|]; [|reflexivity].
  unfold_M.
  destruct (status r =? 404); [reflexivity|].
  destruct (body_json r) as [b|]; reflexivity.
Qed.

Lemma getUsername_by_id_404 :
  forall id tok repo (net : network) r,
    headers_accepted net tok = true ->
    net (mkRequest (UserById id) (github_headers tok)) = Some r ->
    status r = 404 ->
    run (getUsername (mkOpts (ById id) tok repo)) net
    = (Ok VNull, [mkRequest (UserById id) (github_headers tok)]).
Proof.
  intros id tok repo net r Hacc Hnet Hst.
  rewrite (getUsername_asks id) by reflexivity.
  unfold user_by_id_request; simpl.
  rewrite Hacc, Hnet, Hst; reflexivity.
Qed.

(** ** Profile email *)

Lemma getGitHubEmail_no_token :
  forall username opts net,
    truthy (opt_value (token opts)) = false ->
    run (getGitHubEmail username opts) net = (Ok VNull, []).
Proof.
  intros username opts net H.
  unfold getGitHubEmail. rewrite H. reflexivity.
Qed.

Lemma getGitHubEmail_asks :
  forall username opts net,
    truthy (opt_value (token opts)) = true ->
    run (getGitHubEmail username opts) net
    = if headers_accepted net (token opts)
      then match net (users_request username opts) with
           | None => (Throw NetworkError, [users_request username opts])
           | Some r =>
               if status r =? 404 then (Ok VNull, [users_request username opts])
               else match body_json r with
                    | None => (Throw SyntaxError, [users_request username opts])
                    | Some body =>
                        (email <~ get body "email" ;; Ok (js_or email VNull),
                         [users_request username opts])
                    end
           end
      else (Throw TypeError, []).
Proof.
  intros username opts net H.
  unfold getGitHubEmail, run. rewrite H. change (negb true) with false. cbv iota.
  rewrite headers_then_fetch. fold (users_request username opts).
  destruct (headers_accepted net (token opts)); [|reflexivity].
  destruct (net _) as [r|]; [|reflexivity].
  unfold_M.
  destruct (status r =? 404); [reflexivity|].
  destruct (body_json r) as [b|]; [|reflexivity].
  destruct (get b "email"); reflexivity.
Qed.

Lemma getGitHubEmail_with_token :
  forall username opts net,
    truthy (opt_value (token opts)) = true ->
    headers_accepted net (token opts) = true ->
    requests (getGitHubEmail username opts) net = [users_request username opts].
Proof.
  intros username opts net H Hacc.
  unfold requests. rewrite getGitHubEmail_asks by assumption. rewrite Hacc.
  destruct (net _) as [r|]; [|reflexivity].
  destruct (status r =? 404); [reflexivity|].
  destruct (body_json r) as [b|]; reflexivity.
Qed.



(** ** Repository selection *)

Lemma getRepository_override :
  forall username opts net r,
    repository opts = Some r -> r <> EmptyString ->
    run (getRepository username opts) net = (Ok (VStr r), []).
Proof.
  intros username opts net r Hr Hne.
  unfold getRepository. rewrite Hr. simpl.
  destruct r; [congruence|reflexivity].
Qed.

Lemma getRepository_auto :
  forall username opts net,
    truthy (opt_value (repository opts)) = false ->
    run (getRepository username opts) net
    = if headers_accepted net (token opts)
      then match net (repos_request username opts) with
           | None => (Throw NetworkError, [repos_request username opts])
           | Some r =>
               if status r =? 404 then (Ok VNull, [repos_request username opts])
               else match body_json r with
                    | None => (Throw SyntaxError, [repos_request username opts])
                    | Some (VArr (x :: _)) => (get x "name", [repos_request username opts])
                    | Some _ => (Ok VNull, [repos_request username opts])
                    end
           end
      else (Throw TypeError, []).
Proof.
  intros username opts net H.
  unfold getRepository, run. rewrite H. rewrite headers_then_fetch.
  fold (repos_request username opts).
  destruct (headers_accepted net (token opts)); [|reflexivity].
  destruct (net _) as [r|]; [|reflexivity].
  unfold_M.
  destruct (status r =? 404); [reflexivity|].
  destruct (body_json r) as [b|]; [|reflexivity].
  destruct b as [| | | | |[|x rest]|]; reflexivity.
Qed.

(** What the repository lookup asked when it asked something. *)
Lemma getRepository_asked :
  forall username opts net req,
    In req (requests (getRepository username opts) net) ->
    truthy (opt_value (repository opts)) = false
    /\ headers_accepted net (token opts) = true
    /\ req = repos_request username opts.
Proof.
  intros username opts net req Hin.
  destruct (truthy (opt_value (repository opts))) eqn:Hov.
  - unfold requests, getRepository in Hin. rewrite Hov in Hin. destruct Hin.
  - unfold requests in Hin. rewrite getRepository_auto in Hin by assumption.
    destruct (headers_accepted net (token opts)); [|destruct Hin].
    split; [reflexivity|]. split; [reflexivity|].
    destruct (net (repos_request username opts)) as [r|]; simpl in Hin.
    + destruct (status r =? 404); simpl in Hin.
      * destruct Hin as [<-|[]]; reflexivity.
      * destruct (body_json r) as [b|]; simpl in Hin.
        -- destruct b as [| | | | |[|x rest]|]; simpl in Hin;
             destruct Hin as [<-|[]]; reflexivity.
        -- destruct Hin as [<-|[]]; reflexivity.
    + destruct Hin as [<-|[]]; reflexivity.
Qed.

(** C10.  An override that is the empty string is not used: selection never
    returns it without asking, and runs exactly as it does without an
    override, that is, it selects from the list of owned repositories.  When
    the host accepts the headers, the one request of the selection is that
    list; and whenever the list was asked and answered, a 404 selects
    nothing (null) and any other answer whose body is an array that starts
    with an object selects the name of that object. *)
Theorem getRepository_empty_override :
  forall (username : value) (w : lookup) (tok : option string) (net : network),
    run (getRepository username (mkOpts w tok (Some EmptyString))) net
    = run (getRepository username (mkOpts w tok None)) net
    /\
    run (getRepository username (mkOpts w tok (Some EmptyString))) net
    <> (Ok (VStr EmptyString), [])
    /\
    (headers_accepted net tok = true ->
       requests (getRepository username (mkOpts w tok (Some EmptyString))) net
       = [mkRequest (Repos username) (github_headers tok)])
    /\
    (forall req r,
       answered (getRepository username (mkOpts w tok (Some EmptyString))) net req r ->
       req = mkRequest (Repos username) (github_headers tok)
       /\ (status r = 404 ->
             outcome (getRepository username (mkOpts w tok (Some EmptyString))) net
             = Ok VNull)
       /\ (forall fields rest,
             status r <> 404 -> body_json r = Some (VArr (VObj fields :: rest)) ->
             outcome (getRepository username (mkOpts w tok (Some EmptyString))) net
             = Ok (field fields "name"))).
Proof.
  intros username w tok net.
  assert (Hreq : headers_accepted net tok = true ->
                 requests (getRepository username (mkOpts w tok (Some EmptyString))) net
                 = [mkRequest (Repos username) (github_headers tok)]).
  { intros Hacc. unfold requests.
    rewrite getRepository_auto by reflexivity.
    unfold repos_request; simpl. rewrite Hacc.
    destruct (net _) as [r|]; simpl; [|reflexivity].
    destruct (status r =? 404); simpl; [reflexivity|].
    destruct (body_json r) as [b|]; simpl; [|reflexivity].
    destruct b as [| | | | |[|x rest]|]; reflexivity. }
  split; [reflexivity|]. split; [|split; [exact Hreq|]].
  - destruct (headers_accepted net tok) eqn:Hacc.
    + intros H. specialize (Hreq eq_refl). unfold requests in Hreq.
      rewrite H in Hreq. discriminate Hreq.
    + rewrite getRepository_auto by reflexivity. simpl token. rewrite Hacc.
      discriminate.
  - intros req r [Hin Hnet].
    apply getRepository_asked in Hin. destruct Hin as [_ [Hacc ->]].
    simpl in Hacc.
    split; [reflexivity|].
    unfold outcome. rewrite getRepository_auto by reflexivity.
    simpl token. rewrite Hacc, Hnet.
    split.
    + intros Hst. rewrite Hst. reflexivity.
    + intros fields rest Hst Hbody. apply Z.eqb_neq in Hst.
      rewrite Hst, Hbody. reflexivity.
Qed.

(** With the empty string as override the first name of the list is
    selected, and a 404 of the list selects nothing. *)
Lemma getRepository_empty_override_witness :
  requests (getRepository octocat with_empty_override) (example_net [newest_pushed])
  = [mkRequest (Repos octocat) (github_headers None)]
  /\ outcome (getRepository octocat with_empty_override) (example_net [newest_pushed])
     = Ok (VStr "hello-world")
  /\ outcome (getRepository octocat with_empty_override) not_found = Ok VNull.
Proof.
  split; [|split].
  - destruct (getRepository_empty_override octocat (ByUsername "octocat") None
                (example_net [newest_pushed])) as [_ [_ [H _]]].
    apply H. reflexivity.
  - destruct (getRepository_empty_override octocat (ByUsername "octocat") None
                (example_net [newest_pushed])) as [_ [_ [_ H]]].
    destruct (H (repos_request octocat with_empty_override)
                (mkResponse 200 EmptyString
                   (Some (VArr [VObj [("name", VStr "hello-world")];
                                VObj [("name", VStr "spoon-knife")]]))))
      as [_ [_ H2]].
    + split; [left; reflexivity | reflexivity].
    + apply (H2 [("name", VStr "hello-world")] [VObj [("name", VStr "spoon-knife")]]).
      * discriminate.
      * reflexivity.
  - destruct (getRepository_empty_override octocat (ByUsername "octocat") None not_found)
      as [_ [_ [_ H]]].
    destruct (H (repos_request octocat with_empty_override)
                (mkResponse 404 EmptyString (Some (VObj [("message", VStr "Not Found")]))))
      as [_ [H1 _]].
    + split; [left; reflexivity | reflexivity].
    + apply H1. reflexivity.
Defined.

Section RepositorySelection.
Variable new_Date : value -> option Z.

Lemma getRecentCommitsEmails_no_repository :
  forall username opts net log,
    getRepository username opts net [] = (Ok VNull, log) ->
    run (getRecentCommitsEmails new_Date username opts) net = (Ok [], log).
Proof.
  intros username opts net log H.
  unfold getRecentCommitsEmails, run, bind. rewrite H. reflexivity.
Qed.

End RepositorySelection.


(** ** Commit history: deduplication by name *)

Lemma same_value_zero_eq : forall a b, same_value_zero a b = true -> a = b.
Proof.
  intros a b H.
  destruct a, b; simpl in H; try discriminate; try reflexivity.
  - apply Bool.eqb_prop in H. now subst.
  - apply Z.eqb_eq in H. now subst.
  - apply String.eqb_eq in H. now subst.
Qed.

Lemma same_value_zero_str : forall s, same_value_zero (VStr s) (VStr s) = true.
Proof. intros s. simpl. apply String.eqb_refl. Qed.

Lemma Map_has_app : forall m1 m2 k, Map_has (m1 ++ m2) k = Map_has m1 k || Map_has m2 k.
Proof. intros. unfold Map_has. apply existsb_app. Qed.

Lemma Map_has_false : forall m k k' e,
  Map_has m k = false -> In (k', e) m -> same_value_zero k' k = false.
Proof.
  intros m k k' e H Hin.
  destruct (same_value_zero k' k) eqn:E; [|reflexivity].
  assert (Map_has m k = true); [|congruence].
  unfold Map_has. apply existsb_exists. exists (k', e). split; assumption.
Qed.

(** Setting a key the map does not have appends the entry. *)
Lemma Map_set_fresh : forall m k v, Map_has m k = false -> Map_set m k v = m ++ [(k, v)].
Proof.
  induction m as [|[k' v'] m IH]; intros k v H; simpl in *.
  - reflexivity.
  - apply orb_false_iff in H as [H1 H2]. rewrite H1. f_equal. now apply IH.
Qed.

Section Deduplication.
Variable new_Date : value -> option Z.

Lemma construct_Date_error : forall d e,
  construct_Date new_Date d = Throw e -> e = TypeError.
Proof.
  intros d e. unfold construct_Date.
  destruct (to_primitive_throws d); congruence.
Qed.

(** Recording an identity whose date has been constructed. *)
Lemma record_identity_record_id : forall acc n e d date,
  construct_Date new_Date d = Ok date ->
  record_identity new_Date acc n e d
  = Ok (record_id acc {| id_name := n; id_email := e; id_date := date |}).
Proof.
  intros acc n e d date H. unfold record_identity, record_id. simpl.
  rewrite H. simpl.
  destruct (truthy n && negb (Map_has acc n)); reflexivity.
Qed.

Lemma record_identity_error : forall acc n e d err,
  record_identity new_Date acc n e d = Throw err -> err = TypeError.
Proof.
  intros acc n e d err. unfold record_identity.
  destruct (truthy n && negb (Map_has acc n)); [|discriminate].
  destruct (construct_Date new_Date d) eqn:E; simpl; [discriminate|].
  intros H; inversion H; subst. eapply construct_Date_error; eassumption.
Qed.

Lemma reducer_identities : forall acc x l,
  commit_identities new_Date x = Ok l ->
  reducer new_Date acc x = Ok (fold_left record_id l acc).
Proof.
  intros acc x l. unfold reducer, commit_identities, identity_of.
  destruct (get_default x "commit") as [commit|]; simpl; [|intros H; discriminate H].
  destruct (get_default commit "author") as [author|]; simpl; [|intros H; discriminate H].
  destruct (get_default commit "committer") as [committer|]; simpl;
    [|intros H; discriminate H].
  destruct (get author "name") as [an|]; simpl; [|intros H; discriminate H].
  destruct (get author "email") as [ae|]; simpl; [|intros H; discriminate H].
  destruct (get author "date") as [ad|]; simpl; [|intros H; discriminate H].
  destruct (construct_Date new_Date ad) as [adate|] eqn:Ea; simpl;
    [|intros H; discriminate H].
  destruct (get committer "name") as [cn|]; simpl; [|intros H; discriminate H].
  destruct (get committer "email") as [ce|]; simpl; [|intros H; discriminate H].
  destruct (get committer "date") as [cd|]; simpl; [|intros H; discriminate H].
  destruct (construct_Date new_Date cd) as [cdate|] eqn:Ec; simpl;
    [|intros H; discriminate H].
  intros H; inversion H; subst; clear H. simpl.
  rewrite (record_identity_record_id _ _ _ _ _ Ea). simpl.
  rewrite (record_identity_record_id _ _ _ _ _ Ec). reflexivity.
Qed.

Lemma get_error : forall v k e, get v k = Throw e -> e = TypeError.
Proof. intros [] k e H; simpl in H; congruence. Qed.

Lemma get_default_error : forall v k e, get_default v k = Throw e -> e = TypeError.
Proof.
  intros v k e H. unfold get_default in H.
  destruct (get v k) as [[]|e'] eqn:G; try discriminate.
  inversion H; subst. eapply get_error; eassumption.
Qed.

Lemma reducer_error : forall acc x e,
  reducer new_Date acc x = Throw e -> e = TypeError.
Proof.
  intros acc x e. unfold reducer.
  repeat match goal with
         | |- context [rbind ?r _] =>
             let E := fresh "E" in
             destruct r eqn:E; simpl;
             [| intros H; inversion H; subst;
                first [eapply get_error; eassumption
                      | eapply get_default_error; eassumption
                      | eapply record_identity_error; eassumption]]
         end.
  discriminate.
Qed.

Lemma reduce_error : forall items acc e,
  reduce (reducer new_Date) items acc = Throw e -> e = TypeError.
Proof.
  induction items as [|x items IH]; intros acc e H; simpl in H; [discriminate|].
  destruct (reducer new_Date acc x) eqn:E; simpl in H.
  - eapply IH; eassumption.
  - inversion H; subst. eapply reducer_error; eassumption.
Qed.

Lemma commit_identities_error : forall x e,
  commit_identities new_Date x = Throw e -> e = TypeError.
Proof.
  intros x e. unfold commit_identities, identity_of.
  repeat match goal with
         | |- context [rbind ?r _] =>
             let E := fresh "E" in
             destruct r eqn:E; simpl;
             [| intros H; inversion H; subst;
                first [eapply get_error; eassumption
                      | eapply get_default_error; eassumption
                      | eapply construct_Date_error; eassumption]]
         end.
  discriminate.
Qed.

Lemma identities_error : forall items e,
  identities new_Date items = Throw e -> e = TypeError.
Proof.
  induction items as [|x items IH]; intros e H; simpl in H; [discriminate|].
  destruct (commit_identities new_Date x) eqn:E; simpl in H.
  - destruct (identities new_Date items) eqn:E2; simpl in H; [discriminate|].
    inversion H; subst. now apply IH.
  - inversion H; subst. eapply commit_identities_error; eassumption.
Qed.

(** The reduce records, in order, the identities of the payload. *)
Lemma reduce_identities : forall items acc ids,
  identities new_Date items = Ok ids ->
  reduce (reducer new_Date) items acc = Ok (fold_left record_id ids acc).
Proof.
  induction items as [|x items IH]; intros acc ids H; simpl in *.
  - inversion H; subst. reflexivity.
  - destruct (commit_identities new_Date x) as [l|e] eqn:E; simpl in H; [|discriminate H].
    destruct (identities new_Date items) as [ls|e] eqn:E2; simpl in H; [|discriminate H].
    inversion H; subst; clear H.
    rewrite (reducer_identities _ _ _ E). simpl.
    rewrite (IH _ _ eq_refl). now rewrite fold_left_app.
Qed.
End Deduplication.


Lemma first_wins_entry_seen : forall seen m k e,
  first_wins seen m -> In (k, e) m -> In e seen.
Proof.
  intros seen m k e H Hin.
  apply in_split in Hin as [m1 [m2 ->]].
  destruct (H m1 k e m2 eq_refl) as (_ & _ & before & after & -> & _).
  apply in_or_app. right. left. reflexivity.
Qed.

Lemma first_wins_more : forall seen m i,
  first_wins seen m -> first_wins (seen ++ [i]) m.
Proof.
  intros seen m i H m1 k e m2 Hm.
  destruct (H m1 k e m2 Hm) as (Hk & Ht & before & after & Hs & Hb & Hm1).
  split; [assumption|]. split; [assumption|].
  exists before, (after ++ [i]). split; [|split; assumption].
  rewrite Hs, <- app_assoc. reflexivity.
Qed.

Lemma record_id_step : forall seen m i,
  first_wins seen m -> all_recorded seen m ->
  first_wins (seen ++ [i]) (record_id m i) /\ all_recorded (seen ++ [i]) (record_id m i).
Proof.
  intros seen m i HF HA. unfold record_id.
  destruct (truthy (id_name i)) eqn:Ht; simpl.
  - destruct (Map_has m (id_name i)) eqn:Hh; simpl.
    + split; [now apply first_wins_more|].
      intros j Hj Htj Hrj. apply in_app_or in Hj as [Hj|[<-|[]]]; [now apply HA | assumption].
    + rewrite Map_set_fresh by assumption. split.
      * intros m1 k e m2 Hm.
        destruct m2 as [|z m2'] using rev_ind.
        -- apply app_inj_tail in Hm as [<- Hke]. inversion Hke; subst k e.
           split; [reflexivity|]. split; [assumption|].
           exists seen, []. split; [reflexivity|]. split.
           ++ intros j Hj.
              destruct (same_value_zero (id_name j) (id_name i)) eqn:E; [|reflexivity].
              pose proof (same_value_zero_eq _ _ E) as Heq.
              assert (Map_has m (id_name j) = true) as Hc.
              { apply HA; [assumption | now rewrite Heq | now rewrite Heq at 2]. }
              rewrite Heq in Hc. congruence.
           ++ intros k' e' Hin. eapply first_wins_entry_seen; eassumption.
        -- clear IHm2'.
           change (m1 ++ (k, e) :: m2' ++ [z]) with (m1 ++ ((k, e) :: m2') ++ [z]) in Hm.
           rewrite app_assoc in Hm.
           apply app_inj_tail in Hm as [Hm _].
           apply (first_wins_more seen m i HF m1 k e m2' Hm).
      * intros j Hj Htj Hrj. rewrite Map_has_app.
        apply in_app_or in Hj as [Hj|[<-|[]]].
        -- rewrite HA by assumption. reflexivity.
        -- simpl. rewrite Hrj. simpl. apply orb_true_r.
  - split; [now apply first_wins_more|].
    intros j Hj Htj Hrj. apply in_app_or in Hj as [Hj|[<-|[]]]; [now apply HA | congruence].
Qed.

Lemma record_all_invariant : forall l seen m,
  first_wins seen m -> all_recorded seen m ->
  first_wins (seen ++ l) (fold_left record_id l m)
  /\ all_recorded (seen ++ l) (fold_left record_id l m).
Proof.
  induction l as [|i l IH]; intros seen m HF HA; simpl.
  - rewrite app_nil_r. split; assumption.
  - destruct (record_id_step seen m i HF HA) as [HF' HA'].
    specialize (IH (seen ++ [i]) (record_id m i) HF' HA').
    rewrite <- app_assoc in IH. exact IH.
Qed.

Lemma first_wins_unique : forall seen m k e1 e2,
  first_wins seen m -> In (k, e1) m -> In (k, e2) m ->
  same_value_zero k k = true -> e1 = e2.
Proof.
  intros seen m k e1 e2 HF H1 H2 Hr.
  apply in_split in H1 as [m1 [m2 Hm]].
  destruct (HF m1 k e1 m2 Hm) as (Hk1 & _ & b1 & a1 & Hs1 & Hb1 & Hm1).
  rewrite Hm in H2. apply in_app_or in H2 as [H2|[H2|H2]].
  - assert (In (k, e2) m) as Hin2 by (rewrite Hm; apply in_or_app; left; exact H2).
    apply in_split in Hin2 as [n1 [n2 Hn]].
    destruct (HF n1 k e2 n2 Hn) as (Hk2 & _).
    apply Hm1 in H2. apply Hb1 in H2.
    rewrite <- Hk2 in H2. congruence.
  - now inversion H2.
  - apply in_split in H2 as [m3 [m4 Hm2]].
    assert (m = (m1 ++ (k, e1) :: m3) ++ (k, e2) :: m4) as Hm'.
    { rewrite Hm, Hm2, <- app_assoc. reflexivity. }
    destruct (HF _ k e2 m4 Hm') as (Hk2 & _ & b2 & a2 & Hs2 & Hb2 & Hm2').
    assert (In e1 b2) as Hin.
    { apply (Hm2' k e1). apply in_or_app. right. left. reflexivity. }
    apply Hb2 in Hin. rewrite <- Hk1 in Hin. congruence.
Qed.

(** ** Event feed: the scan *)

Section Scan.
Local Opaque email_key.

Lemma append_assoc : forall a b c, (a +++ b) +++ c = a +++ b +++ c.
Proof. induction a; intros; simpl; [reflexivity | now rewrite IHa]. Qed.

Lemma length_append : forall a b,
  String.length (a +++ b) = (String.length a + String.length b)%nat.
Proof. induction a; intros; simpl; [reflexivity | now rewrite IHa]. Qed.

Lemma append_inv_head : forall a b c, a +++ b = a +++ c -> b = c.
Proof. induction a; intros b c H; simpl in H; [assumption | inversion H; auto]. Qed.

Lemma append_eq_length : forall a c b d,
  a +++ b = c +++ d -> String.length a = String.length c -> a = c /\ b = d.
Proof.
  induction a as [|x a IH]; intros [|y c] b d H Hl; simpl in *; try discriminate.
  - split; [reflexivity | assumption].
  - inversion H; subst. injection Hl as Hl.
    destruct (IH c b d H2 Hl) as [-> ->]. split; reflexivity.
Qed.

Lemma drop_append : forall a b, drop (String.length a) (a +++ b) = b.
Proof. induction a; intros; simpl; [reflexivity | apply IHa]. Qed.

Lemma drop_drop : forall n m s, drop (n + m) s = drop m (drop n s).
Proof.
  induction n as [|n IH]; intros m s; simpl; [reflexivity|].
  destruct s; [destruct m; reflexivity | apply IH].
Qed.

Lemma length_drop : forall n s,
  (n <= String.length s)%nat -> String.length (drop n s) = (String.length s - n)%nat.
Proof.
  induction n as [|n IH]; intros s H; simpl.
  - now rewrite Nat.sub_0_r.
  - destruct s; simpl in *; [lia | apply IH; lia].
Qed.

Lemma strip_prefix_spec : forall p s r, strip_prefix p s = Some r <-> s = p +++ r.
Proof.
  induction p as [|a p IH]; intros s r; simpl.
  - split; [intros H; now inversion H | intros ->; reflexivity].
  - destruct s as [|b s]; [split; discriminate|].
    destruct (Ascii.eqb a b) eqn:E.
    + apply Ascii.eqb_eq in E. subst b. rewrite IH.
      split; [intros ->; reflexivity | intros H; now inversion H].
    + apply Ascii.eqb_neq in E. split; [discriminate | intros H; inversion H; congruence].
Qed.

Lemma until_quote_Some : forall s v r,
  until_quote s = Some (v, r) -> s = v +++ String dquote r /\ quote_free v.
Proof.
  induction s as [|c s IH]; intros v r H; simpl in H; [discriminate|].
  destruct (Ascii.eqb c dquote) eqn:E.
  - apply Ascii.eqb_eq in E. inversion H; subst. simpl. split; [reflexivity | exact I].
  - apply Ascii.eqb_neq in E.
    destruct (until_quote s) as [[v' r']|] eqn:U; [|discriminate].
    inversion H; subst. destruct (IH v' r eq_refl) as [-> Hq].
    simpl. split; [reflexivity | split; assumption].
Qed.

Lemma until_quote_complete : forall v r,
  quote_free v -> until_quote (v +++ String dquote r) = Some (v, r).
Proof.
  induction v as [|c v IH]; intros r Hq; simpl.
  - reflexivity.
  - destruct Hq as [Hc Hq]. apply Ascii.eqb_neq in Hc. rewrite Hc, IH by assumption.
    reflexivity.
Qed.

Lemma until_quote_finds : forall a b, until_quote (a +++ String dquote b) <> None.
Proof.
  induction a as [|c a IH]; intros b; simpl.
  - discriminate.
  - destruct (Ascii.eqb c dquote); [discriminate|].
    specialize (IH b). destruct (until_quote (a +++ String dquote b)) as [[? ?]|];
      [discriminate | congruence].
Qed.

Lemma quote_free_split : forall v1 v2 r1 r2,
  quote_free v1 -> quote_free v2 ->
  v1 +++ String dquote r1 = v2 +++ String dquote r2 -> v1 = v2 /\ r1 = r2.
Proof.
  intros v1 v2 r1 r2 H1 H2 H.
  pose proof (until_quote_complete v1 r1 H1) as U1.
  pose proof (until_quote_complete v2 r2 H2) as U2.
  rewrite H in U1. rewrite U1 in U2. inversion U2. split; reflexivity.
Qed.

Lemma match_here_Some : forall s v n,
  match_here s = Some (v, n) ->
  exists r, s = email_key +++ v +++ String dquote r /\ quote_free v
            /\ n = (String.length email_key + String.length v + 1)%nat.
Proof.
  intros s v n H. unfold match_here in H.
  destruct (strip_prefix email_key s) as [s1|] eqn:P; [|discriminate].
  destruct (until_quote s1) as [[v' r]|] eqn:U; [|discriminate].
  inversion H; subst. apply strip_prefix_spec in P.
  apply until_quote_Some in U as [-> Hq].
  exists r. repeat split; assumption.
Qed.

Lemma match_here_None : forall s,
  match_here s = None -> forall v r, s <> email_key +++ v +++ String dquote r.
Proof.
  intros s H v r ->. unfold match_here in H.
  assert (strip_prefix email_key (email_key +++ v +++ String dquote r)
          = Some (v +++ String dquote r)) as P by now apply strip_prefix_spec.
  rewrite P in H.
  pose proof (until_quote_finds v r) as F.
  destruct (until_quote (v +++ String dquote r)) as [[? ?]|]; [discriminate | congruence].
Qed.

Lemma search_eq : forall s pos,
  search s pos
  = match match_here s with
    | Some (v, len) => Some (v, (pos + len)%nat)
    | None => match s with
              | EmptyString => None
              | String _ s' => search s' (S pos)
              end
    end.
Proof. destruct s; reflexivity. Qed.

Lemma search_None : forall s pos, search s pos = None -> forall n, ~ occurs_at s n.
Proof.
  induction s as [|c s IH]; intros pos H n (g & v & r & Hs & Hn); rewrite search_eq in H.
  - destruct g; [|discriminate]. simpl in Hs.
    destruct (match_here EmptyString) as [[? ?]|] eqn:E; [discriminate|].
    exact (match_here_None _ E v r Hs).
  - destruct (match_here (String c s)) as [[? ?]|] eqn:E; [discriminate|].
    destruct g as [|c' g]; simpl in Hs.
    + exact (match_here_None _ E v r Hs).
    + inversion Hs; subst. apply (IH (S pos) H (String.length g)).
      exists g, v, r. split; reflexivity.
Qed.

Lemma search_Some : forall s pos v e,
  search s pos = Some (v, e) ->
  exists g r,
    s = g +++ email_key +++ v +++ String dquote r
    /\ quote_free v
    /\ (forall n, occurs_at s n -> (String.length g <= n)%nat)
    /\ e = (pos + String.length g + String.length email_key + String.length v + 1)%nat.
Proof.
  induction s as [|c s IH]; intros pos v e H; rewrite search_eq in H.
  - destruct (match_here EmptyString) as [[v' n]|] eqn:E; [|discriminate].
    inversion H; subst. apply match_here_Some in E as (r & Hs & Hq & ->).
    exists EmptyString, r. simpl. repeat split; try assumption; lia.
  - destruct (match_here (String c s)) as [[v' n]|] eqn:E.
    + inversion H; subst. apply match_here_Some in E as (r & Hs & Hq & ->).
      exists EmptyString, r. simpl. repeat split; try assumption; lia.
    + apply IH in H as (g & r & Hs & Hq & Hleft & He).
      exists (String c g), r. subst s. simpl. repeat split; try assumption.
      * intros n (g' & v' & r' & Hs' & Hn).
        destruct g' as [|c' g']; simpl in Hs'.
        -- exfalso. exact (match_here_None _ E v' r' Hs').
        -- simpl in Hn. subst n. apply le_n_S. apply Hleft.
           inversion Hs'. exists g', v', r'. split; [assumption|reflexivity].
      * lia.
Qed.
Lemma Emails_functional : forall s vs, Emails s vs -> forall vs', Emails s vs' -> vs' = vs.
Proof.
  intros s vs H. induction H as [s Hno | g v r vs Hq Hleft Hr IH]; intros vs' H'.
  - inversion H' as [|g v r vs0 Hq Hleft Hr Hs]; [reflexivity|]. subst.
    exfalso. apply (Hno (String.length g)). exists g, v, r. split; reflexivity.
  - remember (g +++ email_key +++ v +++ String dquote r) as s eqn:Hs.
    inversion H' as [s0 Hno | g' v' r' vs0 Hq' Hleft' Hr' Hs'].
    + subst. exfalso. apply (Hno (String.length g)). exists g, v, r. split; reflexivity.
    + subst s. clear H0.
      assert (String.length g' = String.length g) as Hlen.
      { apply Nat.le_antisymm.
        - apply Hleft'. rewrite Hs'. exists g, v, r. split; reflexivity.
        - apply Hleft. rewrite <- Hs'. exists g', v', r'. split; reflexivity. }
      apply append_eq_length in Hs' as [-> Hrest]; [|assumption].
      apply append_inv_head in Hrest.
      apply quote_free_split in Hrest as [-> ->]; try assumption.
      f_equal. apply IH. assumption.
Qed.

Lemma exec_zero : forall text,
  exec text O = match search text O with
                | Some (v, e) => (Some v, e)
                | None => (None, O)
                end.
Proof. intros text. unfold exec. simpl. reflexivity. Qed.

(** The loop ends within the bound and appends the values of the rest of
    the text. *)
Lemma while_lastIndex_spec : forall fuel text lastIndex acc,
  (0 < lastIndex <= String.length text)%nat ->
  (String.length text - lastIndex < fuel)%nat ->
  exists vs,
    while_lastIndex fuel text lastIndex acc = Some (acc ++ vs)
    /\ Emails (drop lastIndex text) vs.
Proof.
  induction fuel as [|fuel IH]; intros text lastIndex acc Hli Hfuel; [lia|].
  simpl. destruct (Nat.eqb_spec lastIndex 0) as [->|_]; [lia|].
  unfold exec.
  destruct (Nat.ltb_spec (String.length text) lastIndex) as [Hlt|_]; [lia|].
  destruct (search (drop lastIndex text) lastIndex) as [[v e]|] eqn:S.
  - apply search_Some in S as (g & r & Hd & Hq & Hleft & He).
    assert (String.length (drop lastIndex text)
            = (String.length g + String.length email_key + String.length v + 1
               + String.length r)%nat) as Hlen.
    { rewrite Hd. rewrite !length_append. simpl. lia. }
    rewrite length_drop in Hlen by lia.
    assert (drop e text = r) as Hrest.
    { replace e with (lastIndex
                      + String.length (g +++ email_key +++ v +++ String dquote EmptyString))%nat.
      - rewrite drop_drop, Hd.
        replace (g +++ email_key +++ v +++ String dquote r)
          with ((g +++ email_key +++ v +++ String dquote EmptyString) +++ r).
        + apply drop_append.
        + rewrite !append_assoc. reflexivity.
      - rewrite !length_append. simpl. lia. }
    destruct (IH text e (push_match acc (Some v))) as (vs & Hw & Hem); [lia | lia |].
    exists (v :: vs). split.
    + rewrite Hw. simpl. rewrite <- app_assoc. reflexivity.
    + rewrite Hd. rewrite Hd in Hleft. rewrite Hrest in Hem.
      now apply Emails_cons.
  - exists []. split.
    + destruct fuel; simpl; now rewrite app_nil_r.
    + apply Emails_nil. eapply search_None; eassumption.
Qed.

(** The scan returns, within its bound, the values of the text. *)
Lemma scanEmails_spec : forall text, exists vs, scanEmails text = Ok vs /\ Emails text vs.
Proof.
  intros text. unfold scanEmails. rewrite exec_zero.
  destruct (search text O) as [[v e]|] eqn:S.
  - apply search_Some in S as (g & r & Hd & Hq & Hleft & He).
    assert (String.length text
            = (String.length g + String.length email_key + String.length v + 1
               + String.length r)%nat) as Hlen.
    { rewrite Hd. rewrite !length_append. simpl. lia. }
    assert (drop e text = r) as Hrest.
    { replace e with (String.length (g +++ email_key +++ v +++ String dquote EmptyString)).
      - rewrite Hd.
        replace (g +++ email_key +++ v +++ String dquote r)
          with ((g +++ email_key +++ v +++ String dquote EmptyString) +++ r).
        + apply drop_append.
        + rewrite !append_assoc. reflexivity.
      - rewrite !length_append. simpl. lia. }
    destruct (while_lastIndex_spec (S (String.length text)) text e (push_match [] (Some v)))
      as (vs & Hw & Hem); [lia | lia |].
    rewrite Hw. exists (v :: vs). split; [reflexivity|].
    rewrite Hd. rewrite Hd in Hleft. rewrite Hrest in Hem. now apply Emails_cons.
  - exists []. split; [reflexivity|].
    apply Emails_nil. eapply search_None; eassumption.
Qed.
End Scan.

Lemma getRecentActivityEmails_asks :
  forall username opts net,
    run (getRecentActivityEmails username opts) net
    = if headers_accepted net (token opts)
      then match net (events_request username opts) with
           | None => (Throw NetworkError, [events_request username opts])
           | Some r =>
               if status r =? 404 then (Ok [], [events_request username opts])
               else (scanEmails (body_text r), [events_request username opts])
           end
      else (Throw TypeError, []).
Proof.
  intros username opts net.
  unfold getRecentActivityEmails, run. rewrite headers_then_fetch.
  fold (events_request username opts).
  destruct (headers_accepted net (token opts)); [|reflexivity].
  destruct (net _) as [r|]; [|reflexivity].
  unfold_M.
  destruct (status r =? 404); reflexivity.
Qed.

(** The event lookup asked something only if the host accepted its headers. *)
Lemma getRecentActivityEmails_asked :
  forall username opts net req,
    In req (requests (getRecentActivityEmails username opts) net) ->
    headers_accepted net (token opts) = true.
Proof.
  intros username opts net req Hin.
  unfold requests in Hin. rewrite getRecentActivityEmails_asks in Hin.
  destruct (headers_accepted net (token opts)); [reflexivity|destruct Hin].
Qed.



(** ** Array.prototype.sort under a comparator that follows a key *)

Lemma StronglySorted_app : forall {A} (R : A -> A -> Prop) l1 l2,
  StronglySorted R l1 -> StronglySorted R l2 ->
  (forall x y, In x l1 -> In y l2 -> R x y) ->
  StronglySorted R (l1 ++ l2).
Proof.
  intros A R l1 l2 H1 H2 H. induction H1 as [|a l1 H1 IH Ha]; simpl; [assumption|].
  constructor.
  - apply IH. intros x y Hx Hy. apply H; [right|]; assumption.
  - apply Forall_app. split; [assumption|].
    apply Forall_forall. intros y Hy. apply H; [left; reflexivity | assumption].
Qed.

Lemma StronglySorted_app_inv : forall {A} (R : A -> A -> Prop) l1 l2,
  StronglySorted R (l1 ++ l2) ->
  StronglySorted R l1 /\ StronglySorted R l2
  /\ (forall x y, In x l1 -> In y l2 -> R x y).
Proof.
  intros A R l1 l2. induction l1 as [|a l1 IH]; simpl; intros H.
  - repeat split; [constructor | assumption | intros x y []].
  - inversion H as [|? ? Hs Hf]; subst.
    destruct (IH Hs) as (H1 & H2 & H3).
    apply Forall_app in Hf as [Hf1 Hf2].
    repeat split; [constructor; assumption | assumption |].
    intros x y [<-|Hx] Hy; [|now apply H3].
    rewrite Forall_forall in Hf2. now apply Hf2.
Qed.

Section SortByKey.
Context {A : Type} (comparefn : A -> A -> Z) (key : A -> Z) (valid : A -> Prop).

(** The comparator answers a negative number exactly when its first
    argument has the larger key. *)
Hypothesis comparefn_key :
  forall a b, valid a -> valid b -> (comparefn a b <? 0) = (key b <? key a).

Lemma sorted_nth_split : forall l mid x,
  StronglySorted (desc key) l -> nth_error l mid = Some x ->
  Forall (fun y => key x <= key y) (firstn (S mid) l)
  /\ Forall (fun y => key y <= key x) (skipn mid l).
Proof.
  induction l as [|a l IH]; intros mid x Hs Hn.
  - destruct mid; discriminate.
  - inversion Hs as [|? ? Hs' Hf]; subst. destruct mid as [|m]; simpl in Hn.
    + inversion Hn; subst. split.
      * constructor; [lia | constructor].
      * simpl. constructor; [lia | exact Hf].
    + destruct (IH m x Hs' Hn) as [H1 H2]. split.
      * change (firstn (S (S m)) (a :: l)) with (a :: firstn (S m) l).
        constructor; [|assumption].
        apply nth_error_In in Hn. rewrite Forall_forall in Hf. now apply Hf.
      * exact H2.
Qed.

Lemma find_insertion_spec : forall fuel sorted pivot lo hi,
  StronglySorted (desc key) sorted -> Forall valid sorted -> valid pivot ->
  (lo <= hi <= List.length sorted)%nat -> (hi - lo <= fuel)%nat ->
  Forall (fun x => key pivot <= key x) (firstn lo sorted) ->
  Forall (fun x => key x < key pivot) (skipn hi sorted) ->
  exists p,
    find_insertion comparefn fuel sorted pivot lo hi = Some p
    /\ Forall (fun x => key pivot <= key x) (firstn p sorted)
    /\ Forall (fun x => key x < key pivot) (skipn p sorted).
Proof.
  induction fuel as [|fuel IH]; intros sorted pivot lo hi Hs Hv Hp Hb Hf Hlo Hhi.
  - assert (hi = lo) as -> by lia. simpl. rewrite Nat.leb_refl.
    exists lo. repeat split; assumption.
  - simpl. destruct (Nat.leb_spec hi lo) as [Hle|Hlt].
    + assert (hi = lo) as -> by lia. exists lo. repeat split; assumption.
    + set (mid := (lo + Nat.div2 (hi - lo))%nat).
      assert (Nat.div2 (hi - lo) < hi - lo)%nat as Hd by (apply Nat.lt_div2; lia).
      assert (lo <= mid < hi)%nat as Hm.
      { unfold mid. generalize dependent (Nat.div2 (hi - lo)). intros; lia. }
      clearbody mid.
      destruct (nth_error sorted mid) as [x|] eqn:Hn.
      * destruct (sorted_nth_split sorted mid x Hs Hn) as [Hfirst Hskip].
        assert (valid x) as Hvx.
        { rewrite Forall_forall in Hv. apply Hv. eapply nth_error_In; eassumption. }
        rewrite (comparefn_key pivot x Hp Hvx).
        destruct (Z.ltb_spec (key x) (key pivot)) as [Hxp|Hpx].
        -- apply IH; try assumption; try lia.
           eapply Forall_impl; [|exact Hskip]. simpl. intros; lia.
        -- apply IH; try assumption; try lia.
           eapply Forall_impl; [|exact Hfirst]. simpl. intros; lia.
      * apply nth_error_None in Hn. lia.
Qed.

Lemma filter_none : forall (f : A -> bool) l,
  Forall (fun x => f x = false) l -> filter f l = [].
Proof.
  intros f l H. induction H as [|x l Hx _ IH]; simpl; [reflexivity|].
  now rewrite Hx.
Qed.

(** Inserting the pivot where the binary search says keeps the prefix sorted
    and stable. *)
Lemma insert_at_stable : forall sorted seen pivot p,
  stable_desc key sorted seen ->
  Forall (fun x => key pivot <= key x) (firstn p sorted) ->
  Forall (fun x => key x < key pivot) (skipn p sorted) ->
  stable_desc key (insert_at sorted p pivot) (seen ++ [pivot]).
Proof.
  intros sorted seen pivot p (Hperm & Hs & Hst) Hpre Hpost.
  unfold insert_at.
  rewrite <- (firstn_skipn p sorted) in Hperm, Hs, Hst.
  set (pre := firstn p sorted) in *. set (post := skipn p sorted) in *.
  apply StronglySorted_app_inv in Hs as (Hs1 & Hs2 & Hcross).
  split; [|split].
  - apply Permutation_sym. etransitivity; [|apply Permutation_middle].
    etransitivity; [apply Permutation_app_comm|]. simpl.
    apply perm_skip. now apply Permutation_sym.
  - apply StronglySorted_app; [assumption | |].
    + constructor; [assumption|].
      eapply Forall_impl; [|exact Hpost]. unfold desc. simpl. intros; lia.
    + intros x y Hx [<-|Hy]; [|now apply Hcross].
      rewrite Forall_forall in Hpre. unfold desc. now apply Hpre.
  - intros t. specialize (Hst t).
    rewrite filter_app in *. simpl. rewrite filter_app. simpl.
    rewrite <- Hst.
    destruct (has_key key t pivot) eqn:Ht; unfold has_key in Ht.
    + apply Z.eqb_eq in Ht.
      assert (filter (has_key key t) post = []) as ->.
      { apply filter_none. eapply Forall_impl; [|exact Hpost].
        unfold has_key. simpl. intros a Ha. apply Z.eqb_neq. lia. }
      rewrite app_nil_r. reflexivity.
    + rewrite app_nil_r. reflexivity.
Qed.

Lemma stable_desc_valid : forall out input,
  stable_desc key out input -> Forall valid input -> Forall valid out.
Proof.
  intros out input (Hperm & _) Hv. rewrite Forall_forall in *.
  intros x Hx. apply Hv. eapply Permutation_in; eassumption.
Qed.

Lemma BinaryInsertionSort_spec : forall rest sorted seen,
  stable_desc key sorted seen -> Forall valid seen -> Forall valid rest ->
  exists out,
    BinaryInsertionSort comparefn sorted rest = Some out
    /\ stable_desc key out (seen ++ rest).
Proof.
  induction rest as [|pivot rest IH]; intros sorted seen Hst Hvs Hvr; simpl.
  - exists sorted. rewrite app_nil_r. split; [reflexivity | assumption].
  - inversion Hvr as [|? ? Hp Hvr']; subst.
    pose proof (stable_desc_valid _ _ Hst Hvs) as Hvsorted.
    pose proof Hst as (_ & Hs & _).
    assert (exists p,
              find_insertion comparefn (List.length sorted) sorted pivot O (List.length sorted)
              = Some p
              /\ Forall (fun x => key pivot <= key x) (firstn p sorted)
              /\ Forall (fun x => key x < key pivot) (skipn p sorted))
      as (p & Hfind & Hpre & Hpost).
    { apply find_insertion_spec; try assumption.
      - lia.
      - lia.
      - simpl. constructor.
      - rewrite skipn_all. constructor. }
    rewrite Hfind.
    destruct (IH (insert_at sorted p pivot) (seen ++ [pivot])) as (out & Hout & Hsd).
    + now apply insert_at_stable.
    + apply Forall_app. split; [assumption | constructor; [assumption | constructor]].
    + assumption.
    + exists out. split; [assumption|]. rewrite <- app_assoc in Hsd. exact Hsd.
Qed.
Lemma run_tail_chain : forall d rest previous,
  Sorted (follows comparefn d) (previous :: firstn (run_tail comparefn d previous rest) rest).
Proof.
  intros d. induction rest as [|current rest IH]; intros previous; simpl.
  - repeat constructor.
  - destruct d.
    + destruct (Z.leb_spec 0 (comparefn current previous)) as [Hge|Hlt]; simpl.
      * repeat constructor.
      * constructor; [apply IH|]. constructor. unfold follows. now apply Z.ltb_lt.
    + destruct (Z.ltb_spec (comparefn current previous) 0) as [Hlt|Hge]; simpl.
      * repeat constructor.
      * constructor; [apply IH|]. constructor. unfold follows. now apply Z.ltb_ge.
Qed.

Lemma Sorted_valid_impl : forall (R S : A -> A -> Prop) l,
  (forall a b, valid a -> valid b -> R a b -> S a b) ->
  Forall valid l -> Sorted R l -> Sorted S l.
Proof.
  intros R S l HRS Hv Hs. induction Hs as [|a l Hs IH Hhd]; [constructor|].
  inversion Hv as [|? ? Ha Hl]; subst.
  constructor; [now apply IH|].
  destruct Hhd as [|b l Hab]; constructor.
  inversion Hl; subst. now apply HRS.
Qed.

Lemma StronglySorted_rev : forall l,
  StronglySorted (asc_strict key) l -> StronglySorted (desc key) (rev l).
Proof.
  intros l H. induction H as [|a l H IH Ha]; simpl; [constructor|].
  apply StronglySorted_app; [assumption | repeat constructor |].
  intros x y Hx [<-|[]]. apply in_rev in Hx.
  rewrite Forall_forall in Ha. specialize (Ha x Hx).
  unfold asc_strict in Ha. unfold desc. lia.
Qed.

Lemma filter_strict_short : forall t l,
  StronglySorted (asc_strict key) l -> (List.length (filter (has_key key t) l) <= 1)%nat.
Proof.
  intros t l H. induction H as [|a l H IH Ha]; simpl; [lia|].
  destruct (has_key key t a) eqn:E; [|assumption].
  rewrite filter_none; [simpl; lia|].
  eapply Forall_impl; [|exact Ha]. intros b Hb.
  unfold has_key in *. apply Z.eqb_eq in E. apply Z.eqb_neq.
  unfold asc_strict in Hb. lia.
Qed.

Lemma rev_short : forall (l : list A), (List.length l <= 1)%nat -> rev l = l.
Proof. intros [|a [|b l]] H; simpl in *; try reflexivity; lia. Qed.

Lemma filter_rev_eq : forall (f : A -> bool) l, filter f (rev l) = rev (filter f l).
Proof.
  intros f. induction l as [|a l IH]; simpl; [reflexivity|].
  rewrite filter_app, IH. simpl. destruct (f a); simpl; [reflexivity | apply app_nil_r].
Qed.

Lemma desc_trans : Relations_1.Transitive (desc key).
Proof. intros a b c Hab Hbc. unfold desc in *. lia. Qed.

Lemma asc_strict_trans : Relations_1.Transitive (asc_strict key).
Proof. intros a b c Hab Hbc. unfold asc_strict in *. lia. Qed.

Lemma stable_desc_refl_sorted : forall l, StronglySorted (desc key) l -> stable_desc key l l.
Proof. intros l H. repeat split; [apply Permutation_refl | assumption]. Qed.

Lemma CountAndMakeRun_spec : forall l r rest,
  Forall valid l -> CountAndMakeRun comparefn l = (r, rest) ->
  exists seen, l = seen ++ rest /\ stable_desc key r seen.
Proof.
  intros l r rest Hv H. destruct l as [|x [|y l]]; simpl in H.
  - inversion H; subst. exists []. split; [reflexivity|].
    apply stable_desc_refl_sorted. constructor.
  - inversion H; subst. exists [x]. split; [reflexivity|].
    apply stable_desc_refl_sorted. repeat constructor.
  - set (d := comparefn y x <? 0) in *.
    set (n := run_tail comparefn d y l) in *.
    exists (x :: y :: firstn n l). split.
    { inversion H; subst. simpl. now rewrite firstn_skipn. }
    assert (Sorted (follows comparefn d) (x :: y :: firstn n l)) as Hchain.
    { constructor; [apply run_tail_chain|]. constructor. reflexivity. }
    assert (Forall valid (x :: y :: firstn n l)) as Hvrun.
    { inversion Hv as [|? ? Hx Hv']; subst. inversion Hv' as [|? ? Hy Hl]; subst.
      repeat (constructor; [assumption|]).
      rewrite Forall_forall in *. intros z Hz. apply Hl.
      rewrite <- (firstn_skipn n l). apply in_or_app. now left. }
    assert (r = if d then rev (x :: y :: firstn n l) else x :: y :: firstn n l) as ->.
    { inversion H. reflexivity. }
    clear H. destruct d.
    + assert (StronglySorted (asc_strict key) (x :: y :: firstn n l)) as Hasc.
      { apply Sorted_StronglySorted; [exact asc_strict_trans|].
        eapply Sorted_valid_impl; [|exact Hvrun|exact Hchain].
        intros a b Ha Hb Hf. unfold follows in Hf.
        rewrite (comparefn_key b a Hb Ha) in Hf. apply Z.ltb_lt in Hf. exact Hf. }
      split; [|split].
      * apply Permutation_sym, Permutation_rev.
      * now apply StronglySorted_rev.
      * intros t. rewrite filter_rev_eq. apply rev_short.
        now apply filter_strict_short.
    + apply stable_desc_refl_sorted.
      apply Sorted_StronglySorted; [exact desc_trans|].
      eapply Sorted_valid_impl; [|exact Hvrun|exact Hchain].
      intros a b Ha Hb Hf. unfold follows in Hf.
      rewrite (comparefn_key b a Hb Ha) in Hf. apply Z.ltb_ge in Hf. exact Hf.
Qed.

(** The sort returns, and what it returns is the stable descending sort. *)
Lemma Array_sort_spec : forall l,
  Forall valid l ->
  exists out, Array_sort comparefn l = Some out /\ stable_desc key out l.
Proof.
  intros l Hv. unfold Array_sort.
  destruct (Nat.ltb_spec (List.length l) 2) as [Hshort|Hlong].
  - exists l. split; [reflexivity|]. apply stable_desc_refl_sorted.
    destruct l as [|a [|b l]]; simpl in Hshort; try lia; repeat constructor.
  - destruct (CountAndMakeRun comparefn l) as [r rest] eqn:Hrun.
    destruct (CountAndMakeRun_spec l r rest Hv Hrun) as (seen & -> & Hsd).
    apply Forall_app in Hv as [Hvs Hvr].
    now apply BinaryInsertionSort_spec.
Qed.
End SortByKey.

(** ** Commit history: the order of the output *)

Lemma byDate_key : forall a b,
  dated a -> dated b -> (byDate a b <? 0) = (time_of b <? time_of a).
Proof.
  intros a b Ha Hb. unfold byDate, date_gt, time_of, dated in *.
  destruct (id_date a) as [x|]; [|congruence].
  destruct (id_date b) as [y|]; [|congruence].
  destruct (y <? x); reflexivity.
Qed.

(** C2, as amended.  When every identity of the map has a valid date, the
    output is the list of the name and email pairs of the identities sorted
    by descending timestamp: it is a rearrangement of the values of the map,
    no identity stands before a more recent one, and the identities of any
    one timestamp keep their order of insertion. *)
Theorem recentCommitsResult_sorted_by_date :
  forall (m : CommitsMap),
    Forall dated (Map_values m) ->
    exists sorted,
      recentCommitsResult m = Ok (map strip sorted)
      /\ Permutation sorted (Map_values m)
      /\ StronglySorted (fun a b => time_of b <= time_of a) sorted
      /\ (forall t,
            filter (fun e => time_of e =? t) sorted
            = filter (fun e => time_of e =? t) (Map_values m)).
Proof.
  intros m Hd. unfold recentCommitsResult.
  destruct (Array_sort_spec byDate time_of dated byDate_key (Map_values m) Hd)
    as (out & Hsort & Hperm & Hs & Hst).
  rewrite Hsort. exists out. repeat split; assumption.
Qed.

(** On the map of [tied_dates], whose identities all have a date, the
    theorem applies: A, B and D share a timestamp and C is older. *)
Lemma recentCommitsResult_sorted_by_date_witness :
  Forall dated (Map_values tied_map)
  /\ exists sorted,
       recentCommitsResult tied_map = Ok (map strip sorted)
       /\ Permutation sorted (Map_values tied_map)
       /\ StronglySorted (fun a b => time_of b <= time_of a) sorted
       /\ (forall t,
             filter (fun e => time_of e =? t) sorted
             = filter (fun e => time_of e =? t) (Map_values tied_map)).
Proof.
  assert (Forall dated (Map_values tied_map)) as H.
  { repeat constructor; discriminate. }
  split; [exact H|].
  exact (recentCommitsResult_sorted_by_date tied_map H).
Defined.

Example commitsEmailsMap_tied_dates : commitsEmailsMap Date_of tied_dates = Ok tied_map.
Proof. reflexivity. Qed.

Example aggregate_tied_dates :
  aggregate Date_of tied_dates
  = Ok [{| name := VStr "A"; email := VStr "a@example.com" |};
        {| name := VStr "B"; email := VStr "b@example.com" |};
        {| name := VStr "D"; email := VStr "d@example.com" |};
        {| name := VStr "C"; email := VStr "c@example.com" |}].
Proof. reflexivity. Qed.

Example aggregate_three_dates :
  aggregate Date_of three_dates
  = Ok [{| name := VStr "B"; email := VStr "b@example.com" |};
        {| name := VStr "C"; email := VStr "c@example.com" |};
        {| name := VStr "A"; email := VStr "a@example.com" |}].
Proof. reflexivity. Qed.

(** C2, counterexample.  An author without a date stands between one of
    2020 and one of 2023: the comparator answers 1 on every pair the sort
    asks about, the array is left as it is, and the identity of 2020 is
    output before the more recent one of 2023. *)
Lemma recentCommitsResult_undated_counterexample :
  exists m a b c,
    commitsEmailsMap Date_of undated_between = Ok m
    /\ Map_values m = [a; b; c]
    /\ recentCommitsResult m = Ok [strip a; strip b; strip c]
    /\ id_date a = Some 1577836800000
    /\ id_date b = None
    /\ id_date c = Some 1672531200000
    /\ date_gt (id_date c) (id_date a) = true.
Proof.
  do 4 eexists. split; [reflexivity|]. split; [reflexivity|].
  repeat split; reflexivity.
Qed.

(** ** The sort always returns *)

Section SortTotal.
Context {A : Type} (comparefn : A -> A -> Z).

Lemma find_insertion_total : forall fuel sorted pivot lo hi,
  (lo <= hi <= List.length sorted)%nat -> (hi - lo <= fuel)%nat ->
  exists p, find_insertion comparefn fuel sorted pivot lo hi = Some p.
Proof.
  induction fuel as [|fuel IH]; intros sorted pivot lo hi Hb Hf; simpl.
  - destruct (Nat.leb_spec hi lo); [eexists; reflexivity | lia].
  - destruct (Nat.leb_spec hi lo) as [Hle|Hlt]; [eexists; reflexivity|].
    set (mid := (lo + Nat.div2 (hi - lo))%nat).
    assert (Nat.div2 (hi - lo) < hi - lo)%nat as Hd by (apply Nat.lt_div2; lia).
    assert (lo <= mid < hi)%nat as Hm.
    { unfold mid. generalize dependent (Nat.div2 (hi - lo)). intros; lia. }
    clearbody mid.
    destruct (nth_error sorted mid) as [x|] eqn:Hn.
    + destruct (comparefn pivot x <? 0); apply IH; lia.
    + apply nth_error_None in Hn. lia.
Qed.

Lemma BinaryInsertionSort_total : forall rest sorted,
  exists out, BinaryInsertionSort comparefn sorted rest = Some out.
Proof.
  induction rest as [|pivot rest IH]; intros sorted; simpl.
  - eexists; reflexivity.
  - destruct (find_insertion_total (List.length sorted) sorted pivot O (List.length sorted))
      as [p ->]; [lia | lia |].
    apply IH.
Qed.

Lemma Array_sort_total : forall l, exists out, Array_sort comparefn l = Some out.
Proof.
  intros l. unfold Array_sort.
  destruct (List.length l <? 2)%nat; [eexists; reflexivity|].
  destruct (CountAndMakeRun comparefn l) as [r rest].
  apply BinaryInsertionSort_total.
Qed.
Lemma insert_at_perm : forall sorted p (pivot : A),
  Permutation (insert_at sorted p pivot) (pivot :: sorted).
Proof.
  intros sorted p pivot. unfold insert_at.
  rewrite <- (firstn_skipn p sorted) at 3.
  apply Permutation_sym, Permutation_middle.
Qed.

Lemma BinaryInsertionSort_perm : forall rest sorted out,
  BinaryInsertionSort comparefn sorted rest = Some out -> Permutation out (sorted ++ rest).
Proof.
  induction rest as [|pivot rest IH]; intros sorted out H; simpl in H.
  - inversion H; subst. now rewrite app_nil_r.
  - destruct (find_insertion comparefn (List.length sorted) sorted pivot O (List.length sorted))
      as [p|]; [|discriminate].
    apply IH in H. rewrite H.
    pose proof (Permutation_app_tail rest (insert_at_perm sorted p pivot)) as Hp.
    rewrite Hp. simpl. apply Permutation_middle.
Qed.

Lemma CountAndMakeRun_perm : forall l r rest,
  CountAndMakeRun comparefn l = (r, rest) -> Permutation (r ++ rest) l.
Proof.
  intros l r rest H. destruct l as [|x [|y l]]; simpl in H.
  - inversion H; subst. constructor.
  - inversion H; subst. apply Permutation_refl.
  - set (n := run_tail comparefn (comparefn y x <? 0) y l) in *.
    assert (r = (if comparefn y x <? 0 then rev (x :: y :: firstn n l)
                 else x :: y :: firstn n l)
            /\ rest = skipn n l) as [-> ->].
    { inversion H. split; reflexivity. }
    transitivity ((x :: y :: firstn n l) ++ skipn n l).
    + apply Permutation_app_tail.
      destruct (comparefn y x <? 0); [apply Permutation_sym, Permutation_rev|reflexivity].
    + simpl. now rewrite firstn_skipn.
Qed.

(** Whatever the comparator answers, the sort rearranges its input. *)
Lemma Array_sort_perm : forall l out,
  Array_sort comparefn l = Some out -> Permutation out l.
Proof.
  intros l out H. unfold Array_sort in H.
  destruct (List.length l <? 2)%nat; [inversion H; subst; reflexivity|].
  destruct (CountAndMakeRun comparefn l) as [r rest] eqn:Hrun.
  apply BinaryInsertionSort_perm in H. rewrite H.
  now apply CountAndMakeRun_perm.
Qed.
End SortTotal.

(** ** Which payloads the aggregation gets through *)

Section Shapes.
Variable new_Date : value -> option Z.

Lemma get_prop : forall v k, not_null v = true -> v <> VUndefined -> get v k = Ok (prop v k).
Proof.
  intros v k Hn Hu. destruct v; simpl in *; try reflexivity; congruence.
Qed.

Lemma get_default_prop : forall v k,
  not_null v = true -> v <> VUndefined ->
  get_default v k = Ok (or_empty_object (prop v k)).
Proof.
  intros v k Hn Hu. unfold get_default. rewrite get_prop by assumption.
  destruct (prop v k); reflexivity.
Qed.

Lemma or_empty_object_defined : forall v, or_empty_object v <> VUndefined.
Proof. intros []; simpl; discriminate. Qed.

Lemma identity_of_returns : forall v,
  not_null v = true -> v <> VUndefined ->
  identity_of new_Date v
  = if to_primitive_throws (prop v "date") then Throw TypeError
    else Ok {| id_name := prop v "name"; id_email := prop v "email";
               id_date := new_Date (prop v "date") |}.
Proof.
  intros v Hn Hu. unfold identity_of, construct_Date.
  rewrite !get_prop by assumption. simpl.
  destruct (to_primitive_throws (prop v "date")); reflexivity.
Qed.

Lemma get_default_cases : forall v k,
  v <> VUndefined ->
  get_default v k
  = if not_null v then Ok (or_empty_object (prop v k)) else Throw TypeError.
Proof.
  intros v k Hu. destruct (not_null v) eqn:Hn.
  - now apply get_default_prop.
  - destruct v; try discriminate. reflexivity.
Qed.

Lemma identity_of_cases : forall v,
  v <> VUndefined ->
  (exists i, identity_of new_Date v = Ok i)
  <-> not_null v && negb (to_primitive_throws (prop v "date")) = true.
Proof.
  intros v Hu. destruct (not_null v) eqn:Hn.
  - rewrite identity_of_returns by assumption.
    destruct (to_primitive_throws (prop v "date")); simpl.
    + split; [intros [i H]; discriminate | discriminate].
    + split; [reflexivity | intros _; eexists; reflexivity].
  - destruct v; try discriminate.
    split; [intros [i H]; discriminate | discriminate].
Qed.

Lemma not_null_or_empty_object : forall v, not_null (or_empty_object v) = not_null v.
Proof. intros []; reflexivity. Qed.

Lemma commit_identities_readable : forall x,
  x <> VUndefined -> not_null x = true ->
  (exists l, commit_identities new_Date x = Ok l)
  <-> (not_null (or_empty_object (prop x "commit"))
       && not_null (prop (or_empty_object (prop x "commit")) "author")
       && not_null (prop (or_empty_object (prop x "commit")) "committer"))
      && convertible_dates x = true.
Proof.
  intros x Hu Hn. unfold commit_identities, convertible_dates.
  rewrite get_default_prop by assumption. simpl rbind.
  set (commit := or_empty_object (prop x "commit")).
  assert (commit <> VUndefined) as Hcu by apply or_empty_object_defined.
  rewrite !get_default_cases by assumption.
  destruct (not_null commit); simpl;
    [|split; [intros [l H]; discriminate | discriminate]].
  pose proof (identity_of_cases (or_empty_object (prop commit "author"))
                (or_empty_object_defined _)) as Ha.
  pose proof (identity_of_cases (or_empty_object (prop commit "committer"))
                (or_empty_object_defined _)) as Hc.
  rewrite not_null_or_empty_object in Ha, Hc.
  destruct (identity_of new_Date (or_empty_object (prop commit "author"))) as [a|e]; simpl.
  - assert (not_null (prop commit "author")
            && negb (to_primitive_throws
                       (prop (or_empty_object (prop commit "author")) "date")) = true)
      as Ha' by (apply Ha; eexists; reflexivity).
    apply andb_true_iff in Ha' as [-> ->]. simpl.
    destruct (identity_of new_Date (or_empty_object (prop commit "committer"))) as [c|e];
      simpl.
    + assert (not_null (prop commit "committer")
              && negb (to_primitive_throws
                         (prop (or_empty_object (prop commit "committer")) "date")) = true)
        as Hc' by (apply Hc; eexists; reflexivity).
      apply andb_true_iff in Hc' as [-> ->].
      split; [reflexivity | intros _; eexists; reflexivity].
    + split; [intros [l H]; discriminate|].
      intros H. apply andb_true_iff in H as [H1 H2].
      assert (exists i : CommitIdentity, @Throw CommitIdentity e = Ok i) as [i Hi].
      { apply Hc. rewrite H1, H2. reflexivity. }
      discriminate.
  - split; [intros [l H]; discriminate|].
    intros H. apply andb_true_iff in H as [H1 H2].
    apply andb_true_iff in H1 as [H1 _].
    apply andb_true_iff in H2 as [H2 _].
    assert (exists i : CommitIdentity, @Throw CommitIdentity e = Ok i) as [i Hi].
    { apply Ha. rewrite H1, H2. reflexivity. }
    discriminate.
Qed.

Lemma commit_identities_readable_iff : forall x,
  (exists l, commit_identities new_Date x = Ok l) <-> readable_commit x = true.
Proof.
  intros x. unfold readable_commit.
  destruct x as [| |b|n|s|items|fields];
    try (split; [intros [l H]; discriminate | discriminate]);
    apply commit_identities_readable; (reflexivity || discriminate).
Qed.

Lemma identities_readable : forall items,
  (exists ids, identities new_Date items = Ok ids) <-> forallb readable_commit items = true.
Proof.
  induction items as [|x items IH]; simpl.
  - split; [reflexivity | eexists; reflexivity].
  - rewrite andb_true_iff, <- IH, <- commit_identities_readable_iff.
    destruct (commit_identities new_Date x) as [l|e]; simpl.
    + destruct (identities new_Date items) as [ls|e]; simpl.
      * split; [intros _; split; eexists; reflexivity | intros _; eexists; reflexivity].
      * split; [intros [? H]; discriminate | intros [_ [? H]]; discriminate].
    + split; [intros [? H]; discriminate | intros [[? H] _]; discriminate].
Qed.

(** The callback gets through shaped entries only. *)
Lemma reducer_shaped : forall acc x acc',
  reducer new_Date acc x = Ok acc' -> shaped_commit x = true.
Proof.
  intros acc x acc'. unfold reducer.
  destruct x as [| |b|n|s|items|fields]; try (simpl; intros H; discriminate H);
    try (intros _; reflexivity).
  rewrite get_default_prop by (reflexivity || discriminate).
  unfold shaped_commit.
  generalize (or_empty_object_defined (prop (VObj fields) "commit")).
  generalize (or_empty_object (prop (VObj fields) "commit")).
  intros commit Hcu. simpl rbind.
  rewrite !get_default_cases by assumption.
  destruct (not_null commit); simpl; [|intros H; discriminate H].
  destruct (prop commit "author"); simpl; try (intros H; discriminate H);
    destruct (prop commit "committer"); simpl; try (intros H; discriminate H);
    reflexivity.
Qed.

Lemma reduce_shaped : forall items acc m,
  reduce (reducer new_Date) items acc = Ok m -> forallb shaped_commit items = true.
Proof.
  induction items as [|x items IH]; intros acc m H; simpl in *; [reflexivity|].
  destruct (reducer new_Date acc x) as [acc'|e] eqn:E; simpl in H; [|discriminate H].
  rewrite (reducer_shaped _ _ _ E). simpl. eapply IH; eassumption.
Qed.

(** The only exception of the aggregation is the TypeError. *)
Lemma aggregate_throws : forall items e,
  aggregate new_Date items = Throw e -> e = TypeError.
Proof.
  intros items e. unfold aggregate, commitsEmailsMap.
  destruct (reduce (reducer new_Date) items []) as [m|e'] eqn:E; simpl.
  - unfold recentCommitsResult.
    destruct (Array_sort_total byDate (Map_values m)) as [out ->].
    discriminate.
  - intros H. inversion H; subst. eapply reduce_error; eassumption.
Qed.

(** The aggregation returns a result on the arrays all of whose entries are
    shaped and carry dates that have a primitive. *)
Lemma aggregate_returns : forall items,
  forallb readable_commit items = true -> exists out, aggregate new_Date items = Ok out.
Proof.
  intros items H. apply identities_readable in H as [ids Hids].
  unfold aggregate, commitsEmailsMap. rewrite (reduce_identities _ _ _ _ Hids). simpl.
  unfold recentCommitsResult.
  destruct (Array_sort_total byDate (Map_values (fold_left record_id ids []))) as [out ->].
  eexists; reflexivity.
Qed.

(** It throws on the arrays that have an entry that is not shaped. *)
Lemma aggregate_unshaped : forall items,
  forallb shaped_commit items = false -> aggregate new_Date items = Throw TypeError.
Proof.
  intros items H.
  destruct (aggregate new_Date items) as [out|e] eqn:E.
  - unfold aggregate, commitsEmailsMap in E.
    destruct (reduce (reducer new_Date) items []) as [m|e'] eqn:E'; simpl in E;
      [|discriminate E].
    apply reduce_shaped in E'. congruence.
  - f_equal. eapply aggregate_throws; eassumption.
Qed.
End Shapes.

(** ** Commit history: what is kept, and malformed payloads *)

(** C1.  Whenever the identities of the payload can be read, the reduce
    gets through the payload and the map it returns holds, in the order of
    their first occurrences, exactly the first identity of each name, the
    identities being met commit by commit in
    payload order, the author before the committer: every entry has a truthy
    name (present and, for a string, non-empty) and is an identity before
    which no identity of the same name occurs, and the entries recorded
    before it come from earlier identities; every non-empty string name of
    the payload has an entry; and a name has one entry only, so that the
    email kept for a name is the email of its earliest occurrence.  The
    output of the aggregation is a rearrangement of the name and email pairs
    of these entries. *)
Theorem commitsEmailsMap_first_name_wins :
  forall (new_Date : value -> option Z) (items : list value) (ids : list CommitIdentity),
    identities new_Date items = Ok ids ->
    exists m,
      commitsEmailsMap new_Date items = Ok m
      /\ first_wins ids m
      /\ (forall k e, In (k, e) m ->
            k = id_name e /\ k <> VUndefined /\ k <> VNull /\ k <> VStr EmptyString)
      /\ (forall i s, In i ids -> id_name i = VStr s -> s <> EmptyString ->
            exists e, In (VStr s, e) m)
      /\ (forall s e1 e2, In (VStr s, e1) m -> In (VStr s, e2) m -> e1 = e2)
      /\ (exists out,
            aggregate new_Date items = Ok out
            /\ Permutation out (map strip (Map_values m))).
Proof.
  intros new_Date items ids Hids.
  unfold commitsEmailsMap. rewrite (reduce_identities _ _ _ _ Hids).
  eexists. split; [reflexivity|].
  assert (first_wins [] ([] : CommitsMap)) as HF0.
  { intros m1 k e m2 Hm. destruct m1; discriminate. }
  assert (all_recorded [] ([] : CommitsMap)) as HA0.
  { intros i []. }
  destruct (record_all_invariant ids [] [] HF0 HA0) as [HF HA]. simpl in HF, HA.
  split; [exact HF|]. split; [|split; [|split]].
  - intros k e Hin. apply in_split in Hin as [m1 [m2 Hm]].
    destruct (HF m1 k e m2 Hm) as (Hk & Ht & _).
    split; [assumption|].
    repeat split; intros ->; discriminate.
  - intros i s Hin Hname Hne.
    assert (Map_has (fold_left record_id ids []) (VStr s) = true) as Hhas.
    { rewrite <- Hname. apply HA; [assumption| |].
      - rewrite Hname. destruct s; [congruence|reflexivity].
      - rewrite Hname. apply same_value_zero_str. }
    unfold Map_has in Hhas. apply existsb_exists in Hhas as [[k e] [Hin' Hk]].
    simpl in Hk. apply same_value_zero_eq in Hk. subst k.
    exists e. assumption.
  - intros s e1 e2 H1 H2.
    eapply first_wins_unique; eauto. apply same_value_zero_str.
  - unfold aggregate, commitsEmailsMap. rewrite (reduce_identities _ _ _ _ Hids). simpl.
    unfold recentCommitsResult.
    destruct (Array_sort_total byDate (Map_values (fold_left record_id ids [])))
      as [sorted Hsort].
    rewrite Hsort. eexists. split; [reflexivity|].
    apply Permutation_map. eapply Array_sort_perm. eassumption.
Qed.

(** On the payload of testable property 3 the map keeps one entry for [A],
    with the email of the newest commit. *)
Lemma commitsEmailsMap_first_name_wins_witness :
  exists m,
    commitsEmailsMap Date_of same_name_twice = Ok m
    /\ (forall e, In (VStr "A", e) m -> id_email e = VStr "a1").
Proof.
  destruct (commitsEmailsMap_first_name_wins Date_of same_name_twice
              [mkIdentity (VStr "A") (VStr "a1") None;
               mkIdentity VUndefined VUndefined None;
               mkIdentity (VStr "A") (VStr "a2") None;
               mkIdentity VUndefined VUndefined None] eq_refl)
    as (m & Hm & HF & _ & _ & Huniq & _).
  exists m. split; [exact Hm|].
  intros e Hin.
  assert (In (VStr "A", mkIdentity (VStr "A") (VStr "a1") None) m) as H1.
  { vm_compute in Hm. inversion Hm. left. reflexivity. }
  rewrite (Huniq "A" e _ Hin H1). reflexivity.
Defined.

Example aggregate_same_name_twice :
  aggregate Date_of same_name_twice = Ok [{| name := VStr "A"; email := VStr "a1" |}].
Proof. reflexivity. Qed.

(** C8.  The destructuring defaults of the callback replace [undefined]
    only.  A commits array whose entry is null, or whose commit, author or
    committer is null, makes the callback throw a TypeError, and the
    aggregation throws with it instead of returning a result. *)
Theorem aggregate_throws_on_null :
  forall (new_Date : value -> option Z),
    aggregate new_Date
      [VObj [("commit", VObj [("author", VNull);
                              ("committer", person "A" "a@example.com" "2020-01-01T00:00:00Z")])]]
    = Throw TypeError
    /\ aggregate new_Date [VObj [("commit", VNull)]] = Throw TypeError
    /\ aggregate new_Date [VNull] = Throw TypeError.
Proof.
  intros new_Date. repeat split; reflexivity.
Qed.

(** C9.  An author with a name and no email is recorded, and the entry of
    the output has [undefined] for email, not a string. *)
Theorem aggregate_email_undefined :
  forall (new_Date : value -> option Z),
    aggregate new_Date [authored_by (VObj [("name", VStr "A")])]
    = Ok [{| name := VStr "A"; email := VUndefined |}].
Proof.
  intros new_Date. reflexivity.
Qed.

(** ** The monad: the log only grows, and results do not depend on it *)

Lemma LI_ret : forall A (a : A), log_independent (ret a).
Proof. intros A a net log. unfold ret. simpl. now rewrite app_nil_r. Qed.

Lemma LI_throw : forall A e, log_independent (@throw A e).
Proof. intros A e net log. unfold throw. simpl. now rewrite app_nil_r. Qed.

Lemma LI_lift : forall A (r : result A), log_independent (lift r).
Proof. intros A r net log. unfold lift. simpl. now rewrite app_nil_r. Qed.

Lemma LI_fetch : forall u h, log_independent (fetch u h).
Proof. intros u h net log. unfold fetch. destruct (net _); reflexivity. Qed.

Lemma LI_getGitHubAPIHeaders : forall tok, log_independent (getGitHubAPIHeaders tok).
Proof.
  intros tok net log. rewrite !getGitHubAPIHeaders_eq.
  destruct (headers_accepted net tok); simpl; now rewrite app_nil_r.
Qed.

Lemma LI_json : forall r, log_independent (json r).
Proof. intros r. unfold json. destruct (body_json r); [apply LI_ret | apply LI_throw]. Qed.

Lemma LI_bind : forall A B (m : M A) (k : A -> M B),
  log_independent m -> (forall a, log_independent (k a)) -> log_independent (bind m k).
Proof.
  intros A B m k Hm Hk net log. unfold bind.
  rewrite (Hm net log). destruct (m net []) as [[a|e] l1]; simpl.
  - rewrite (Hk a net (log ++ l1)), (Hk a net l1). simpl. now rewrite app_assoc.
  - reflexivity.
Qed.

Ltac log_independence :=
  repeat first
    [ apply LI_ret | apply LI_throw | apply LI_lift | apply LI_fetch | apply LI_json
    | apply LI_getGitHubAPIHeaders
    | apply LI_bind; [|intros ?]
    | match goal with
      | |- log_independent (if ?b then _ else _) => destruct b
      | |- log_independent (match ?x with _ => _ end) => destruct x
      end ].

Lemma LI_getUsername : forall opts, log_independent (getUsername opts).
Proof. intros opts. unfold getUsername. log_independence. Qed.

Lemma LI_getGitHubEmail : forall u opts, log_independent (getGitHubEmail u opts).
Proof. intros u opts. unfold getGitHubEmail. log_independence. Qed.

Lemma LI_getNpmEmail : forall u, log_independent (getNpmEmail u).
Proof. intros u. unfold getNpmEmail. log_independence. Qed.

Lemma LI_getRepository : forall u opts, log_independent (getRepository u opts).
Proof. intros u opts. unfold getRepository. log_independence. Qed.

Lemma LI_getRecentActivityEmails : forall u opts,
  log_independent (getRecentActivityEmails u opts).
Proof. intros u opts. unfold getRecentActivityEmails. log_independence. Qed.

Lemma LI_getRecentCommitsEmails : forall new_Date u opts,
  log_independent (getRecentCommitsEmails new_Date u opts).
Proof.
  intros new_Date u opts. unfold getRecentCommitsEmails.
  apply LI_bind; [apply LI_getRepository|]. intros repo.
  log_independence.
Qed.

(** The outcome of a sequence is the outcome of its parts in turn. *)
Lemma outcome_bind : forall A B (m : M A) (k : A -> M B) net,
  (forall a, log_independent (k a)) ->
  outcome (bind m k) net = rbind (outcome m net) (fun a => outcome (k a) net).
Proof.
  intros A B m k net Hk. unfold outcome, run, bind.
  destruct (m net []) as [[a|e] l1]; simpl; [|reflexivity].
  rewrite (Hk a net l1). reflexivity.
Qed.

(** ** Which exceptions the lookups throw *)

Lemma NT_ret : forall A e (a : A), never_throws e (ret a).
Proof. intros A e a net log. discriminate. Qed.

Lemma NT_throw : forall A e e', e' <> e -> never_throws e (@throw A e').
Proof. intros A e e' He net log. simpl. congruence. Qed.

Lemma NT_lift : forall A e (r : result A), r <> Throw e -> never_throws e (lift r).
Proof. intros A e r Hr net log. exact Hr. Qed.

Lemma NT_fetch : forall e u h, e <> NetworkError -> never_throws e (fetch u h).
Proof.
  intros e u h He net log. unfold fetch.
  destruct (net _); simpl; [discriminate | congruence].
Qed.

Lemma NT_getGitHubAPIHeaders : forall e tok,
  e <> TypeError -> never_throws e (getGitHubAPIHeaders tok).
Proof.
  intros e tok He net log. rewrite getGitHubAPIHeaders_eq.
  destruct (headers_accepted net tok); simpl; [discriminate | congruence].
Qed.

Lemma NT_json : forall e r, e <> SyntaxError -> never_throws e (json r).
Proof.
  intros e r He net log. unfold json.
  destruct (body_json r); simpl; [discriminate | congruence].
Qed.

Lemma NT_bind : forall A B e (m : M A) (k : A -> M B),
  never_throws e m -> (forall a, never_throws e (k a)) -> never_throws e (bind m k).
Proof.
  intros A B e m k Hm Hk net log. unfold bind.
  specialize (Hm net log). destruct (m net log) as [[a|e'] l1]; simpl in *.
  - apply Hk.
  - intros H. apply Hm. inversion H. reflexivity.
Qed.

Lemma outcome_never : forall A e (m : M A) net,
  never_throws e m -> outcome m net <> Throw e.
Proof. intros A e m net H. apply H. Qed.

(** The lookups throw nothing but a TypeError, a SyntaxError or a
    NetworkError. *)
Section LookupErrors.
Variable e : error.
Hypothesis not_type : e <> TypeError.
Hypothesis not_syntax : e <> SyntaxError.
Hypothesis not_network : e <> NetworkError.

Lemma get_never : forall v k, get v k <> Throw e.
Proof. intros v k H. apply get_error in H. congruence. Qed.

Lemma scanEmails_never : forall text, scanEmails text <> Throw e.
Proof.
  intros text. destruct (scanEmails_spec text) as (vs & -> & _). discriminate.
Qed.

Lemma aggregate_never : forall new_Date items, aggregate new_Date items <> Throw e.
Proof.
  intros new_Date items H. apply aggregate_throws in H. congruence.
Qed.

Ltac never_throwing :=
  repeat first
    [ apply NT_ret
    | apply NT_fetch; assumption
    | apply NT_json; assumption
    | apply NT_getGitHubAPIHeaders; assumption
    | apply NT_lift; first [apply get_never | apply scanEmails_never | apply aggregate_never]
    | apply NT_bind; [|intros ?]
    | match goal with
      | |- never_throws _ (if ?b then _ else _) => destruct b
      | |- never_throws _ (match ?x with _ => _ end) => destruct x
      end ].

Lemma NT_getUsername : forall opts, never_throws e (getUsername opts).
Proof. intros opts. unfold getUsername. never_throwing. Qed.

Lemma NT_getGitHubEmail : forall u opts, never_throws e (getGitHubEmail u opts).
Proof. intros u opts. unfold getGitHubEmail. never_throwing. Qed.

Lemma NT_getNpmEmail : forall u, never_throws e (getNpmEmail u).
Proof. intros u. unfold getNpmEmail. never_throwing. Qed.

Lemma NT_getRepository : forall u opts, never_throws e (getRepository u opts).
Proof. intros u opts. unfold getRepository. never_throwing. Qed.

Lemma NT_getRecentActivityEmails : forall u opts,
  never_throws e (getRecentActivityEmails u opts).
Proof. intros u opts. unfold getRecentActivityEmails. never_throwing. Qed.

Lemma NT_getRecentCommitsEmails : forall new_Date u opts,
  never_throws e (getRecentCommitsEmails new_Date u opts).
Proof.
  intros new_Date u opts. unfold getRecentCommitsEmails.
  apply NT_bind; [apply NT_getRepository|]. intros repo.
  never_throwing.
Qed.
End LookupErrors.

(** In particular no lookup throws the user-not-found error. *)
Lemma KU_getUsername : forall opts, never_throws UserNotFoundError (getUsername opts).
Proof. intros. apply NT_getUsername; discriminate. Qed.

Lemma KU_getGitHubEmail : forall u opts,
  never_throws UserNotFoundError (getGitHubEmail u opts).
Proof. intros. apply NT_getGitHubEmail; discriminate. Qed.

Lemma KU_getNpmEmail : forall u, never_throws UserNotFoundError (getNpmEmail u).
Proof. intros. apply NT_getNpmEmail; discriminate. Qed.

Lemma KU_getRecentCommitsEmails : forall new_Date u opts,
  never_throws UserNotFoundError (getRecentCommitsEmails new_Date u opts).
Proof. intros. apply NT_getRecentCommitsEmails; discriminate. Qed.

Lemma KU_getRecentActivityEmails : forall u opts,
  never_throws UserNotFoundError (getRecentActivityEmails u opts).
Proof. intros. apply NT_getRecentActivityEmails; discriminate. Qed.

(** The bounds of the two loops of the model are never reached. *)
Lemma githubEmail_never_out_of_fuel : forall new_Date opts,
  never_throws OutOfFuel (githubEmail new_Date opts).
Proof.
  intros new_Date opts. unfold githubEmail.
  apply NT_bind; [apply NT_getUsername; discriminate|]. intros username.
  destruct (negb (truthy username)); [apply NT_throw; discriminate|].
  apply NT_bind; [apply NT_getGitHubEmail; discriminate|]. intros g.
  apply NT_bind; [apply NT_getNpmEmail; discriminate|]. intros n.
  apply NT_bind; [apply NT_getRecentCommitsEmails; discriminate|]. intros c.
  apply NT_bind; [apply NT_getRecentActivityEmails; discriminate|]. intros a.
  apply NT_ret.
Qed.

(** ** Each lookup on a 404, and on an answer that it reads without exception *)

Lemma getGitHubEmail_404 : forall u opts (net : network) r,
  headers_accepted net (token opts) = true ->
  net (users_request u opts) = Some r -> status r = 404 ->
  outcome (getGitHubEmail u opts) net = Ok VNull.
Proof.
  intros u opts net r Hacc Hnet Hst. unfold outcome.
  destruct (truthy (opt_value (token opts))) eqn:Ht.
  - rewrite getGitHubEmail_asks by assumption. rewrite Hacc, Hnet, Hst. reflexivity.
  - rewrite getGitHubEmail_no_token by assumption. reflexivity.
Qed.

Lemma getNpmEmail_404 : forall u (net : network) r,
  net (npm_request u) = Some r -> status r = 404 ->
  outcome (getNpmEmail u) net = Ok VNull.
Proof.
  intros u net r Hnet Hst. unfold getNpmEmail. unfold_M.
  fold (npm_request u). rewrite Hnet, Hst. reflexivity.
Qed.

Lemma getRecentActivityEmails_404 : forall u opts (net : network) r,
  headers_accepted net (token opts) = true ->
  net (events_request u opts) = Some r -> status r = 404 ->
  outcome (getRecentActivityEmails u opts) net = Ok [].
Proof.
  intros u opts net r Hacc Hnet Hst. unfold outcome.
  rewrite getRecentActivityEmails_asks. rewrite Hacc, Hnet, Hst. reflexivity.
Qed.

Lemma getRecentCommitsEmails_outcome : forall new_Date u opts (net : network),
  outcome (getRecentCommitsEmails new_Date u opts) net
  = rbind (outcome (getRepository u opts) net) (fun repo =>
      if negb (truthy repo) then Ok []
      else if headers_accepted net (token opts)
      then match net (commits_request u repo opts) with
           | None => Throw NetworkError
           | Some r =>
               if status r =? 404 then Ok []
               else match body_json r with
                    | None => Throw SyntaxError
                    | Some (VArr (x :: rest)) => aggregate new_Date (x :: rest)
                    | Some _ => Ok []
                    end
           end
      else Throw TypeError).
Proof.
  intros new_Date u opts net. unfold getRecentCommitsEmails.
  rewrite outcome_bind by (intros repo; log_independence).
  destruct (outcome (getRepository u opts) net) as [repo|e]; simpl; [|reflexivity].
  destruct (truthy repo); simpl; [|reflexivity].
  unfold outcome, run. rewrite headers_then_fetch. fold (commits_request u repo opts).
  destruct (headers_accepted net (token opts)); [|reflexivity].
  destruct (net _) as [r|]; simpl; [|reflexivity].
  unfold_M.
  destruct (status r =? 404); [reflexivity|].
  destruct (body_json r) as [b|]; simpl; [|reflexivity].
  destruct b as [| | | | |[|x rest]|]; reflexivity.
Qed.

Lemma getRepository_outcome : forall u opts (net : network),
  outcome (getRepository u opts) net
  = if truthy (opt_value (repository opts)) then Ok (opt_value (repository opts))
    else if headers_accepted net (token opts)
    then match net (repos_request u opts) with
         | None => Throw NetworkError
         | Some r =>
             if status r =? 404 then Ok VNull
             else match body_json r with
                  | None => Throw SyntaxError
                  | Some (VArr (x :: _)) => get x "name"
                  | Some _ => Ok VNull
                  end
         end
    else Throw TypeError.
Proof.
  intros u opts net. unfold outcome.
  destruct (truthy (opt_value (repository opts))) eqn:E.
  - unfold getRepository, run. rewrite E. reflexivity.
  - rewrite getRepository_auto by assumption.
    destruct (headers_accepted net (token opts)); [|reflexivity].
    destruct (net _) as [r|]; [|reflexivity].
    destruct (status r =? 404); [reflexivity|].
    destruct (body_json r) as [b|]; [|reflexivity].
    destruct b as [| | | | |[|x rest]|]; reflexivity.
Qed.

Section WellAnswered.
Variable new_Date : value -> option Z.
Variable net : network.
Variable opts : GitHubEmailOpts.
Hypothesis answers : well_answered net.
Hypothesis accepted : headers_accepted net (token opts) = true.

Lemma getGitHubEmail_returns : forall u,
  exists g, outcome (getGitHubEmail u opts) net = Ok g.
Proof.
  intros u. unfold outcome.
  destruct (truthy (opt_value (token opts))) eqn:Ht.
  - rewrite getGitHubEmail_asks by assumption. rewrite accepted.
    destruct (answers (users_request u opts)) as (r & -> & Hr).
    destruct (status r =? 404) eqn:Hst; [eexists; reflexivity|].
    destruct Hr as [H404|(v & Hv & Hn & Hu)]; [apply Z.eqb_neq in Hst; contradiction|].
    rewrite Hv. simpl. rewrite get_prop by assumption. eexists; reflexivity.
  - rewrite getGitHubEmail_no_token by assumption. eexists; reflexivity.
Qed.

Lemma getNpmEmail_returns : forall u, exists n, outcome (getNpmEmail u) net = Ok n.
Proof.
  intros u. unfold getNpmEmail. unfold_M.
  destruct (answers (mkRequest (NpmUser u) [])) as (r & -> & Hr).
  destruct (status r =? 404) eqn:Hst; [eexists; reflexivity|].
  destruct Hr as [H404|(v & Hv & Hn & Hu)]; [apply Z.eqb_neq in Hst; contradiction|].
  rewrite Hv. simpl. rewrite get_prop by assumption. eexists; reflexivity.
Qed.

Lemma getRecentActivityEmails_returns : forall u,
  exists a, outcome (getRecentActivityEmails u opts) net = Ok a.
Proof.
  intros u. unfold outcome. rewrite getRecentActivityEmails_asks. rewrite accepted.
  destruct (answers (events_request u opts)) as (r & -> & _).
  destruct (status r =? 404); [eexists; reflexivity|].
  destruct (scanEmails_spec (body_text r)) as (vs & -> & _). eexists; reflexivity.
Qed.

Lemma getRepository_returns : forall u,
  exists repo, outcome (getRepository u opts) net = Ok repo.
Proof.
  intros u. rewrite getRepository_outcome.
  destruct (truthy (opt_value (repository opts))); [eexists; reflexivity|].
  rewrite accepted.
  destruct (answers (repos_request u opts)) as (r & -> & Hr).
  destruct (status r =? 404) eqn:Hst; [eexists; reflexivity|].
  destruct Hr as [H404|(v & Hv & Hx)]; [apply Z.eqb_neq in Hst; contradiction|].
  rewrite Hv. destruct v as [| | | | |[|x rest]|]; try (eexists; reflexivity).
  destruct (Hx x rest eq_refl) as (Hn & Hu & _).
  rewrite get_prop by assumption. eexists; reflexivity.
Qed.

Lemma getRecentCommitsEmails_returns : forall u,
  exists c, outcome (getRecentCommitsEmails new_Date u opts) net = Ok c.
Proof.
  intros u. rewrite getRecentCommitsEmails_outcome.
  destruct (getRepository_returns u) as [repo ->]. simpl.
  destruct (truthy repo); simpl; [|eexists; reflexivity].
  rewrite accepted.
  destruct (answers (commits_request u repo opts)) as (r & -> & Hr).
  destruct (status r =? 404) eqn:Hst; [eexists; reflexivity|].
  destruct Hr as [H404|(v & Hv & Hx)]; [apply Z.eqb_neq in Hst; contradiction|].
  rewrite Hv. destruct v as [| | | | |[|x rest]|]; try (eexists; reflexivity).
  apply aggregate_returns. apply Hx. reflexivity.
Qed.
End WellAnswered.

(** ** The whole call *)

Lemma githubEmail_outcome : forall new_Date opts (net : network),
  outcome (githubEmail new_Date opts) net
  = rbind (outcome (getUsername opts) net) (fun username =>
      if negb (truthy username) then Throw UserNotFoundError
      else
        rbind (outcome (getGitHubEmail username opts) net) (fun g =>
        rbind (outcome (getNpmEmail username) net) (fun n =>
        rbind (outcome (getRecentCommitsEmails new_Date username opts) net) (fun c =>
        rbind (outcome (getRecentActivityEmails username opts) net) (fun a =>
        Ok {| github := g; npm := n; recentCommits := c; recentActivity := a |}))))).
Proof.
  intros new_Date opts net. unfold githubEmail.
  rewrite outcome_bind.
  2:{ intros u. destruct (negb (truthy u)); [apply LI_throw|].
      apply LI_bind; [apply LI_getGitHubEmail|]. intros g.
      apply LI_bind; [apply LI_getNpmEmail|]. intros n.
      apply LI_bind; [apply LI_getRecentCommitsEmails|]. intros c.
      apply LI_bind; [apply LI_getRecentActivityEmails|]. intros a.
      apply LI_ret. }
  destruct (outcome (getUsername opts) net) as [u|e]; simpl; [|reflexivity].
  destruct (negb (truthy u)); [reflexivity|].
  rewrite outcome_bind.
  2:{ intros g.
      apply LI_bind; [apply LI_getNpmEmail|]. intros n.
      apply LI_bind; [apply LI_getRecentCommitsEmails|]. intros c.
      apply LI_bind; [apply LI_getRecentActivityEmails|]. intros a.
      apply LI_ret. }
  destruct (outcome (getGitHubEmail u opts) net) as [g|e]; simpl; [|reflexivity].
  rewrite outcome_bind.
  2:{ intros n.
      apply LI_bind; [apply LI_getRecentCommitsEmails|]. intros c.
      apply LI_bind; [apply LI_getRecentActivityEmails|]. intros a.
      apply LI_ret. }
  destruct (outcome (getNpmEmail u) net) as [n|e]; simpl; [|reflexivity].
  rewrite outcome_bind.
  2:{ intros c.
      apply LI_bind; [apply LI_getRecentActivityEmails|]. intros a.
      apply LI_ret. }
  destruct (outcome (getRecentCommitsEmails new_Date u opts) net) as [c|e]; simpl;
    [|reflexivity].
  rewrite outcome_bind by (intros a; apply LI_ret).
  destruct (outcome (getRecentActivityEmails u opts) net) as [a|e]; reflexivity.
Qed.

(** What the username lookup asked when it asked something. *)
Lemma getUsername_asked : forall opts net req,
  In req (requests (getUsername opts) net) ->
  headers_accepted net (token opts) = true
  /\ exists id, who opts = ById id /\ req = user_by_id_request id opts.
Proof.
  intros opts net req Hin. unfold requests in Hin.
  destruct (who opts) as [s|id] eqn:Hwho.
  - unfold getUsername, run in Hin. rewrite Hwho in Hin. destruct Hin.
  - rewrite (getUsername_asks id) in Hin by assumption.
    destruct (headers_accepted net (token opts)); [|destruct Hin].
    split; [reflexivity|]. exists id. split; [reflexivity|].
    destruct (net (user_by_id_request id opts)) as [r|]; simpl in Hin.
    + destruct (status r =? 404); simpl in Hin.
      * destruct Hin as [<-|[]]; reflexivity.
      * destruct (body_json r); simpl in Hin; destruct Hin as [<-|[]]; reflexivity.
    + destruct Hin as [<-|[]]; reflexivity.
Qed.


Lemma answers_all_well_answered : well_answered answers_all.
Proof.
  intros [u h]. unfold answers_all. simpl.
  destruct u; eexists; (split; [reflexivity|]); simpl.
  - right. eexists. repeat split; discriminate.
  - right. eexists. repeat split; discriminate.
  - left. reflexivity.
  - right. exact I.
  - right. eexists. split; [reflexivity|].
    intros x rest H. inversion H; subst.
    split; [reflexivity|]. split; [discriminate | reflexivity].
  - right. eexists. split; [reflexivity|].
    intros items H. inversion H; subst. reflexivity.
Defined.


Example githubEmail_answers_all :
  outcome (githubEmail Date_of with_token) answers_all
  = Ok {| github := VStr "octocat@github.com";
          npm := VNull;
          recentCommits :=
            [{| name := VStr "A"; email := VStr "a@example.com" |};
             {| name := VStr "B"; email := VStr "b@example.com" |};
             {| name := VStr "D"; email := VStr "d@example.com" |};
             {| name := VStr "C"; email := VStr "c@example.com" |}];
          recentActivity := ["x"; "x"] |}.
Proof. reflexivity. Qed.


(** * Further properties of the lookups *)

(** ** The requests of a sequence *)

Lemma requests_bind : forall A B (m : M A) (k : A -> M B) (net : network),
  (forall a, log_independent (k a)) ->
  requests (bind m k) net
  = requests m net
    ++ match outcome m net with
       | Ok a => requests (k a) net
       | Throw _ => []
       end.
Proof.
  intros A B m k net Hk. unfold requests, outcome, run, bind.
  destruct (m net []) as [[a|e] l1]; simpl.
  - rewrite (Hk a net l1). reflexivity.
  - now rewrite app_nil_r.
Qed.

Lemma run_outcome_requests : forall A (m : M A) (net : network),
  run m net = (outcome m net, requests m net).
Proof. intros A m net. unfold outcome, requests. destruct (run m net); reflexivity. Qed.

Lemma requests_getUsername : forall opts (net : network),
  requests (getUsername opts) net
  = match who opts with
    | ByUsername _ => []
    | ById id =>
        if headers_accepted net (token opts) then [user_by_id_request id opts] else []
    end.
Proof.
  intros opts net. unfold requests.
  destruct (who opts) as [u|id] eqn:Hwho.
  - unfold getUsername, run. rewrite Hwho. reflexivity.
  - rewrite (getUsername_asks id) by assumption.
    destruct (headers_accepted net (token opts)); [|reflexivity].
    destruct (net _) as [r|]; [|reflexivity].
    destruct (status r =? 404); [reflexivity|].
    destruct (body_json r) as [b|]; reflexivity.
Qed.

Lemma requests_getGitHubEmail : forall u opts (net : network),
  requests (getGitHubEmail u opts) net
  = if truthy (opt_value (token opts)) && headers_accepted net (token opts)
    then [users_request u opts] else [].
Proof.
  intros u opts net. destruct (truthy (opt_value (token opts))) eqn:Ht; simpl.
  - destruct (headers_accepted net (token opts)) eqn:Hacc.
    + now apply getGitHubEmail_with_token.
    + unfold requests. rewrite getGitHubEmail_asks by assumption.
      rewrite Hacc. reflexivity.
  - unfold requests. now rewrite getGitHubEmail_no_token.
Qed.

Lemma requests_getNpmEmail : forall u (net : network),
  requests (getNpmEmail u) net = [npm_request u].
Proof.
  intros u net. unfold getNpmEmail. unfold_M. fold (npm_request u).
  destruct (net _) as [r|]; [|reflexivity].
  destruct (status r =? 404); [reflexivity|].
  destruct (body_json r) as [b|]; [|reflexivity].
  destruct (get b "email"); reflexivity.
Qed.

Lemma requests_getRecentActivityEmails : forall u opts (net : network),
  requests (getRecentActivityEmails u opts) net
  = if headers_accepted net (token opts) then [events_request u opts] else [].
Proof.
  intros u opts net. unfold requests. rewrite getRecentActivityEmails_asks.
  destruct (headers_accepted net (token opts)); [|reflexivity].
  destruct (net _) as [r|]; [|reflexivity].
  destruct (status r =? 404); reflexivity.
Qed.

Lemma requests_getRepository : forall u opts (net : network),
  requests (getRepository u opts) net
  = if truthy (opt_value (repository opts)) then []
    else if headers_accepted net (token opts) then [repos_request u opts] else [].
Proof.
  intros u opts net. unfold requests.
  destruct (truthy (opt_value (repository opts))) eqn:E.
  - unfold getRepository, run. rewrite E. reflexivity.
  - rewrite getRepository_auto by assumption.
    destruct (headers_accepted net (token opts)); [|reflexivity].
    destruct (net _) as [r|]; [|reflexivity].
    destruct (status r =? 404); [reflexivity|].
    destruct (body_json r) as [b|]; [|reflexivity].
    destruct b as [| | | | |[|x rest]|]; reflexivity.
Qed.

Lemma requests_getRecentCommitsEmails : forall new_Date u opts (net : network),
  requests (getRecentCommitsEmails new_Date u opts) net
  = requests (getRepository u opts) net
    ++ match outcome (getRepository u opts) net with
       | Ok repo =>
           if truthy repo && headers_accepted net (token opts)
           then [commits_request u repo opts] else []
       | Throw _ => []
       end.
Proof.
  intros new_Date u opts net. unfold getRecentCommitsEmails.
  rewrite requests_bind by (intros repo; log_independence).
  f_equal.
  destruct (outcome (getRepository u opts) net) as [repo|e]; [|reflexivity].
  destruct (truthy repo); simpl; [|reflexivity].
  unfold requests, run. rewrite headers_then_fetch. fold (commits_request u repo opts).
  destruct (headers_accepted net (token opts)); [|reflexivity].
  destruct (net _) as [r|]; [|reflexivity].
  unfold_M.
  destruct (status r =? 404); [reflexivity|].
  destruct (body_json r) as [b|]; [|reflexivity].
  destruct b as [| | | | |[|x rest]|]; reflexivity.
Qed.

Lemma LI_githubEmail : forall new_Date opts, log_independent (githubEmail new_Date opts).
Proof.
  intros new_Date opts. unfold githubEmail.
  apply LI_bind; [apply LI_getUsername|]. intros u.
  destruct (negb (truthy u)); [apply LI_throw|].
  apply LI_bind; [apply LI_getGitHubEmail|]. intros g.
  apply LI_bind; [apply LI_getNpmEmail|]. intros n.
  apply LI_bind; [apply LI_getRecentCommitsEmails|]. intros c.
  apply LI_bind; [apply LI_getRecentActivityEmails|]. intros a.
  apply LI_ret.
Qed.

(** The requests of the whole call, stage by stage. *)
Lemma requests_githubEmail : forall new_Date opts (net : network),
  requests (githubEmail new_Date opts) net
  = requests (getUsername opts) net
    ++ match outcome (getUsername opts) net with
       | Throw _ => []
       | Ok u =>
           if negb (truthy u) then []
           else
             requests (getGitHubEmail u opts) net
             ++ match outcome (getGitHubEmail u opts) net with
                | Throw _ => []
                | Ok _ =>
                    requests (getNpmEmail u) net
                    ++ match outcome (getNpmEmail u) net with
                       | Throw _ => []
                       | Ok _ =>
                           requests (getRecentCommitsEmails new_Date u opts) net
                           ++ match outcome (getRecentCommitsEmails new_Date u opts) net with
                              | Throw _ => []
                              | Ok _ => requests (getRecentActivityEmails u opts) net
                              end
                       end
                end
       end.
Proof.
  intros new_Date opts net. unfold githubEmail.
  rewrite requests_bind.
  2:{ intros u. destruct (negb (truthy u)); [apply LI_throw|].
      apply LI_bind; [apply LI_getGitHubEmail|]. intros g.
      apply LI_bind; [apply LI_getNpmEmail|]. intros n.
      apply LI_bind; [apply LI_getRecentCommitsEmails|]. intros c.
      apply LI_bind; [apply LI_getRecentActivityEmails|]. intros a.
      apply LI_ret. }
  f_equal. destruct (outcome (getUsername opts) net) as [u|e]; [|reflexivity].
  destruct (negb (truthy u)); [reflexivity|].
  rewrite requests_bind.
  2:{ intros g.
      apply LI_bind; [apply LI_getNpmEmail|]. intros n.
      apply LI_bind; [apply LI_getRecentCommitsEmails|]. intros c.
      apply LI_bind; [apply LI_getRecentActivityEmails|]. intros a.
      apply LI_ret. }
  f_equal. destruct (outcome (getGitHubEmail u opts) net) as [g|e]; [|reflexivity].
  rewrite requests_bind.
  2:{ intros n.
      apply LI_bind; [apply LI_getRecentCommitsEmails|]. intros c.
      apply LI_bind; [apply LI_getRecentActivityEmails|]. intros a.
      apply LI_ret. }
  f_equal. destruct (outcome (getNpmEmail u) net) as [n|e]; [|reflexivity].
  rewrite requests_bind.
  2:{ intros c.
      apply LI_bind; [apply LI_getRecentActivityEmails|]. intros a.
      apply LI_ret. }
  f_equal.
  destruct (outcome (getRecentCommitsEmails new_Date u opts) net) as [c|e]; [|reflexivity].
  rewrite requests_bind by (intros a; apply LI_ret).
  destruct (outcome (getRecentActivityEmails u opts) net); simpl; now rewrite app_nil_r.
Qed.

(** ** The registry lookup *)



(** ** Username resolution by id *)

(** X2.  With an id, resolution builds the GitHub headers first.  When the
    host rejects them (a token with a line feed inside), resolution throws a
    TypeError and asks nothing.  When the host accepts them, resolution asks
    the profile-by-id endpoint once, with these headers: a 404 resolves to
    null; another status with an object body resolves to the body's login,
    undefined when there is none; a body that is not JSON throws a
    SyntaxError, the body null a TypeError, and no answer a NetworkError. *)
Theorem getUsername_by_id :
  forall (opts : GitHubEmailOpts) (id : Z) (net : network),
    who opts = ById id ->
    (headers_accepted net (token opts) = false ->
       run (getUsername opts) net = (Throw TypeError, []))
    /\
    (headers_accepted net (token opts) = true ->
       requests (getUsername opts) net
       = [mkRequest (UserById id) (github_headers (token opts))]
       /\ (forall r,
             net (user_by_id_request id opts) = Some r ->
             (status r = 404 -> outcome (getUsername opts) net = Ok VNull)
             /\ (forall fields,
                   status r <> 404 -> body_json r = Some (VObj fields) ->
                   outcome (getUsername opts) net = Ok (field fields "login"))
             /\ (status r <> 404 -> body_json r = None ->
                 outcome (getUsername opts) net = Throw SyntaxError)
             /\ (status r <> 404 -> body_json r = Some VNull ->
                 outcome (getUsername opts) net = Throw TypeError))
       /\ (net (user_by_id_request id opts) = None ->
           outcome (getUsername opts) net = Throw NetworkError)).
Proof.
  intros opts id net Hwho. split.
  - intros Hacc. rewrite (getUsername_asks id) by assumption. rewrite Hacc. reflexivity.
  - intros Hacc. split; [|split].
    + rewrite requests_getUsername, Hwho, Hacc. reflexivity.
    + intros r Hnet. unfold outcome. rewrite (getUsername_asks id) by assumption.
      rewrite Hacc, Hnet.
      repeat split.
      * intros ->. reflexivity.
      * intros fields Hst Hb. apply Z.eqb_neq in Hst. rewrite Hst, Hb. reflexivity.
      * intros Hst Hb. apply Z.eqb_neq in Hst. rewrite Hst, Hb. reflexivity.
      * intros Hst Hb. apply Z.eqb_neq in Hst. rewrite Hst, Hb. reflexivity.
    + intros Hnet. unfold outcome. rewrite (getUsername_asks id) by assumption.
      rewrite Hacc, Hnet. reflexivity.
Qed.

Lemma getUsername_by_id_witness :
  outcome (getUsername by_id) answers_all = Ok (VStr "octocat")
  /\ outcome (getUsername by_id) not_found = Ok VNull
  /\ outcome (getUsername by_id) (example_net [rate_limited]) = Ok VUndefined
  /\ outcome (getUsername by_id) (example_net []) = Throw NetworkError
  /\ run (getUsername (mkOpts (ById 583231) (Some broken_token) None)) answers_all
     = (Throw TypeError, []).
Proof.
  split; [|split; [|split; [|split]]].
  - destruct (getUsername_by_id by_id 583231 answers_all eq_refl) as (_ & H).
    destruct (H eq_refl) as (_ & H1 & _).
    destruct (H1 (mkResponse 200 EmptyString (Some (VObj [("login", VStr "octocat")])))
                 eq_refl) as (_ & H2 & _).
    apply (H2 [("login", VStr "octocat")]); [discriminate | reflexivity].
  - destruct (getUsername_by_id by_id 583231 not_found eq_refl) as (_ & H).
    destruct (H eq_refl) as (_ & H0 & _).
    destruct (H0 (mkResponse 404 EmptyString (Some (VObj [("message", VStr "Not Found")])))
                 eq_refl) as (H1 & _).
    apply H1. reflexivity.
  - destruct (getUsername_by_id by_id 583231 (example_net [rate_limited]) eq_refl)
      as (_ & H).
    destruct (H eq_refl) as (_ & H1 & _).
    destruct (H1 (mkResponse 403 EmptyString
                    (Some (VObj [("message", VStr "API rate limit exceeded")]))) eq_refl)
      as (_ & H2 & _).
    apply (H2 [("message", VStr "API rate limit exceeded")]); [discriminate | reflexivity].
  - destruct (getUsername_by_id by_id 583231 (example_net []) eq_refl) as (_ & H).
    destruct (H eq_refl) as (_ & _ & H1).
    apply H1. reflexivity.
  - destruct (getUsername_by_id (mkOpts (ById 583231) (Some broken_token) None) 583231
                answers_all eq_refl) as (H & _).
    apply H. reflexivity.
Defined.

(** ** The whole call: edge cases *)

(** X3.  A call by username throws the user-not-found error exactly when
    the username is the empty string, whatever the network answers; and then
    it throws before anything is asked. *)
Theorem githubEmail_empty_username :
  forall (new_Date : value -> option Z) (opts : GitHubEmailOpts) (s : string)
         (net : network),
    who opts = ByUsername s ->
    (outcome (githubEmail new_Date opts) net = Throw UserNotFoundError
     <-> s = EmptyString)
    /\ (s = EmptyString ->
        run (githubEmail new_Date opts) net = (Throw UserNotFoundError, [])).
Proof.
  intros new_Date opts s net Hwho.
  assert (s = EmptyString ->
          run (githubEmail new_Date opts) net = (Throw UserNotFoundError, [])) as Hempty.
  { intros ->. unfold githubEmail, getUsername, run, bind. rewrite Hwho. reflexivity. }
  split; [|exact Hempty]. split.
  - intros H. destruct s as [|c s]; [reflexivity|]. exfalso.
    rewrite githubEmail_outcome in H.
    assert (outcome (getUsername opts) net = Ok (VStr (String c s))) as Hu
      by (unfold getUsername; rewrite Hwho; reflexivity).
    rewrite Hu in H. simpl in H.
    pose proof (outcome_never _ _ _ net (KU_getGitHubEmail (VStr (String c s)) opts)) as H1.
    pose proof (outcome_never _ _ _ net (KU_getNpmEmail (VStr (String c s)))) as H2.
    pose proof (outcome_never _ _ _ net
                  (KU_getRecentCommitsEmails new_Date (VStr (String c s)) opts)) as H3.
    pose proof (outcome_never _ _ _ net
                  (KU_getRecentActivityEmails (VStr (String c s)) opts)) as H4.
    destruct (outcome (getGitHubEmail _ opts) net); simpl in H; [|congruence].
    destruct (outcome (getNpmEmail _) net); simpl in H; [|congruence].
    destruct (outcome (getRecentCommitsEmails new_Date _ opts) net); simpl in H;
      [|congruence].
    destruct (outcome (getRecentActivityEmails _ opts) net); simpl in H;
      [discriminate | congruence].
  - intros Hs. unfold outcome. rewrite (Hempty Hs). reflexivity.
Qed.

Lemma githubEmail_empty_username_witness :
  run (githubEmail Date_of (mkOpts (ByUsername EmptyString) (Some "t0k3n") None)) answers_all
  = (Throw UserNotFoundError, [])
  /\ outcome (githubEmail Date_of with_token) registry_down <> Throw UserNotFoundError.
Proof.
  split.
  - destruct (githubEmail_empty_username Date_of
                (mkOpts (ByUsername EmptyString) (Some "t0k3n") None) EmptyString
                answers_all eq_refl) as [_ H].
    apply H. reflexivity.
  - destruct (githubEmail_empty_username Date_of with_token "octocat" registry_down eq_refl)
      as [[H _] _].
    intros E. apply H in E. discriminate.
Defined.

Lemma getRecentCommitsEmails_all_not_found : forall new_Date u opts (net : network),
  headers_accepted net (token opts) = true ->
  all_not_found net ->
  outcome (getRecentCommitsEmails new_Date u opts) net = Ok [].
Proof.
  intros new_Date u opts net Hacc Hnet.
  rewrite getRecentCommitsEmails_outcome, getRepository_outcome.
  destruct (truthy (opt_value (repository opts))) eqn:Hov; simpl.
  - rewrite Hov, Hacc. simpl.
    destruct (Hnet (commits_request u (opt_value (repository opts)) opts)) as (r & -> & ->).
    reflexivity.
  - rewrite Hacc.
    destruct (Hnet (repos_request u opts)) as (r & -> & ->). reflexivity.
Qed.

(** X4.  A call by a non-empty username on which every endpoint answers 404
    (no such account) is not an error: whatever the repository override, for
    every token that gives headers the host accepts, it returns the result
    with null for both emails and two empty lists.  With a non-empty token
    that gives headers the host rejects (a line feed inside the token), the
    call throws a TypeError before anything is asked. *)
Theorem githubEmail_unknown_username :
  forall (new_Date : value -> option Z) (opts : GitHubEmailOpts) (s : string)
         (net : network),
    who opts = ByUsername s -> s <> EmptyString ->
    all_not_found net ->
    (headers_accepted net (token opts) = true ->
       outcome (githubEmail new_Date opts) net
       = Ok {| github := VNull; npm := VNull; recentCommits := []; recentActivity := [] |})
    /\
    (truthy (opt_value (token opts)) = true ->
     headers_accepted net (token opts) = false ->
       run (githubEmail new_Date opts) net = (Throw TypeError, [])).
Proof.
  intros new_Date opts s net Hwho Hs Hnet.
  assert (run (getUsername opts) net = (Ok (VStr s), [])) as Hrun.
  { unfold getUsername. rewrite Hwho. reflexivity. }
  assert (outcome (getUsername opts) net = Ok (VStr s)) as Hu
    by (unfold outcome; rewrite Hrun; reflexivity).
  assert (requests (getUsername opts) net = []) as Hq
    by (unfold requests; rewrite Hrun; reflexivity).
  destruct s as [|c s]; [congruence|].
  split.
  - intros Hacc. rewrite githubEmail_outcome, Hu. simpl.
    assert (outcome (getGitHubEmail (VStr (String c s)) opts) net = Ok VNull) as ->.
    { destruct (truthy (opt_value (token opts))) eqn:Ht.
      - destruct (Hnet (users_request (VStr (String c s)) opts)) as (r & Hr & Hst).
        eapply getGitHubEmail_404; eassumption.
      - unfold outcome. now rewrite getGitHubEmail_no_token. }
    simpl.
    destruct (Hnet (npm_request (VStr (String c s)))) as (r & Hr & Hst).
    rewrite (getNpmEmail_404 _ _ _ Hr Hst). simpl.
    rewrite getRecentCommitsEmails_all_not_found by assumption. simpl.
    destruct (Hnet (events_request (VStr (String c s)) opts)) as (r' & Hr' & Hst').
    rewrite (getRecentActivityEmails_404 _ _ _ _ Hacc Hr' Hst'). reflexivity.
  - intros Ht Hacc.
    assert (run (getGitHubEmail (VStr (String c s)) opts) net = (Throw TypeError, []))
      as Hg by (rewrite getGitHubEmail_asks by assumption; rewrite Hacc; reflexivity).
    rewrite run_outcome_requests, githubEmail_outcome, requests_githubEmail, Hu, Hq.
    unfold outcome, requests. simpl. rewrite Hg. reflexivity.
Qed.

Lemma not_found_all_not_found : all_not_found not_found.
Proof. intros req. eexists. split; reflexivity. Defined.

Lemma githubEmail_unknown_username_witness :
  outcome (githubEmail Date_of with_token) not_found
  = Ok {| github := VNull; npm := VNull; recentCommits := []; recentActivity := [] |}
  /\ run (githubEmail Date_of with_broken_token) not_found = (Throw TypeError, []).
Proof.
  split.
  - destruct (githubEmail_unknown_username Date_of with_token "octocat" not_found)
      as [H _].
    + reflexivity.
    + discriminate.
    + exact not_found_all_not_found.
    + apply H. reflexivity.
  - destruct (githubEmail_unknown_username Date_of with_broken_token "octocat" not_found)
      as [_ H].
    + reflexivity.
    + discriminate.
    + exact not_found_all_not_found.
    + apply H; reflexivity.
Defined.

(** ** The commit lookup *)

(** X5.  With a non-empty repository override the commit lookup builds the
    GitHub headers first.  When the host rejects them it throws a TypeError
    and asks nothing.  When the host accepts them it asks the commits
    endpoint of that repository and nothing else: a 404, an empty array or a
    JSON body that is not an array gives the empty list; a non-empty array
    is aggregated. *)
Theorem getRecentCommitsEmails_override :
  forall (new_Date : value -> option Z) (u : value) (opts : GitHubEmailOpts)
         (name : string) (net : network),
    repository opts = Some name -> name <> EmptyString ->
    (headers_accepted net (token opts) = false ->
       run (getRecentCommitsEmails new_Date u opts) net = (Throw TypeError, []))
    /\
    (headers_accepted net (token opts) = true ->
       requests (getRecentCommitsEmails new_Date u opts) net
       = [commits_request u (VStr name) opts]
       /\ (forall r,
             net (commits_request u (VStr name) opts) = Some r ->
             (status r = 404 \/ body_json r = Some (VArr [])
              \/ (exists v, body_json r = Some v /\ forall items, v <> VArr items) ->
              outcome (getRecentCommitsEmails new_Date u opts) net = Ok [])
             /\ (forall x rest,
                   status r <> 404 -> body_json r = Some (VArr (x :: rest)) ->
                   outcome (getRecentCommitsEmails new_Date u opts) net
                   = aggregate new_Date (x :: rest)))).
Proof.
  intros new_Date u opts name net Hov Hne.
  assert (truthy (opt_value (repository opts)) = true) as Ht.
  { rewrite Hov. destruct name; [congruence | reflexivity]. }
  assert (Hreq : requests (getRecentCommitsEmails new_Date u opts) net
                 = if headers_accepted net (token opts)
                   then [commits_request u (VStr name) opts] else []).
  { rewrite requests_getRecentCommitsEmails, requests_getRepository,
      getRepository_outcome, Ht, Hov. simpl.
    destruct name; [congruence | reflexivity]. }
  assert (Hout : outcome (getRecentCommitsEmails new_Date u opts) net
                 = if headers_accepted net (token opts)
                   then match net (commits_request u (VStr name) opts) with
                        | None => Throw NetworkError
                        | Some r =>
                            if status r =? 404 then Ok []
                            else match body_json r with
                                 | None => Throw SyntaxError
                                 | Some (VArr (x :: rest)) => aggregate new_Date (x :: rest)
                                 | Some _ => Ok []
                                 end
                        end
                   else Throw TypeError).
  { rewrite getRecentCommitsEmails_outcome, getRepository_outcome, Ht, Hov. simpl.
    destruct name as [|c name]; [congruence | reflexivity]. }
  split.
  - intros Hacc. rewrite run_outcome_requests, Hout, Hreq, Hacc. reflexivity.
  - intros Hacc. rewrite Hacc in Hreq, Hout. split; [exact Hreq|].
    intros r Hnet. rewrite Hout, Hnet. split.
    + intros [H404|[Hempty|(v & Hv & Hna)]].
      * rewrite H404. reflexivity.
      * destruct (status r =? 404); [reflexivity|]. rewrite Hempty. reflexivity.
      * destruct (status r =? 404); [reflexivity|]. rewrite Hv.
        destruct v as [| | | | |[|x rest]|]; try reflexivity.
        exfalso. apply (Hna (x :: rest)). reflexivity.
    + intros x rest Hst Hb. apply Z.eqb_neq in Hst. rewrite Hst, Hb. reflexivity.
Qed.

Lemma getRecentCommitsEmails_override_witness :
  requests (getRecentCommitsEmails Date_of octocat with_override)
           (example_net [commits_of_linguist])
  = [commits_request octocat (VStr "linguist") with_override]
  /\ outcome (getRecentCommitsEmails Date_of octocat with_override)
             (example_net [commits_of_linguist])
     = aggregate Date_of three_dates
  /\ outcome (getRecentCommitsEmails Date_of octocat with_override) not_found = Ok []
  /\ run (getRecentCommitsEmails Date_of octocat
            (mkOpts (ByUsername "octocat") (Some broken_token) (Some "linguist")))
         not_found
     = (Throw TypeError, []).
Proof.
  split; [|split; [|split]].
  - destruct (getRecentCommitsEmails_override Date_of octocat with_override "linguist"
                (example_net [commits_of_linguist]) eq_refl) as [_ H]; [discriminate|].
    destruct (H eq_refl) as [H1 _]. exact H1.
  - destruct (getRecentCommitsEmails_override Date_of octocat with_override "linguist"
                (example_net [commits_of_linguist]) eq_refl) as [_ H]; [discriminate|].
    destruct (H eq_refl) as [_ H1].
    destruct (H1 (mkResponse 200 EmptyString (Some (VArr three_dates))) eq_refl) as [_ H2].
    apply H2; [discriminate | reflexivity].
  - destruct (getRecentCommitsEmails_override Date_of octocat with_override "linguist"
                not_found eq_refl) as [_ H]; [discriminate|].
    destruct (H eq_refl) as [_ H0].
    destruct (H0 (mkResponse 404 EmptyString (Some (VObj [("message", VStr "Not Found")])))
                 eq_refl) as [H1 _].
    apply H1. left. reflexivity.
  - destruct (getRecentCommitsEmails_override Date_of octocat
                (mkOpts (ByUsername "octocat") (Some broken_token) (Some "linguist"))
                "linguist" not_found eq_refl) as [H _]; [discriminate|].
    apply H. reflexivity.
Defined.

(** X6.  Without an override, when the list of repositories has been asked
    and answered and its first repository has no usable name (the name is
    missing, null or empty), the commit lookup returns the empty list and
    never asks for commits. *)
Theorem getRecentCommitsEmails_nameless_repository :
  forall (new_Date : value -> option Z) (u : value) (opts : GitHubEmailOpts)
         (net : network) (r : response) (fields : list (string * value))
         (rest : list value),
    truthy (opt_value (repository opts)) = false ->
    answered (getRepository u opts) net (repos_request u opts) r ->
    status r <> 404 ->
    body_json r = Some (VArr (VObj fields :: rest)) ->
    truthy (field fields "name") = false ->
    run (getRecentCommitsEmails new_Date u opts) net = (Ok [], [repos_request u opts]).
Proof.
  intros new_Date u opts net r fields rest Hov [Hin Hnet] Hst Hb Hname.
  apply getRepository_asked in Hin. destruct Hin as [_ [Hacc _]].
  unfold getRecentCommitsEmails, run, bind.
  change (getRepository u opts net []) with (run (getRepository u opts) net).
  rewrite getRepository_auto by assumption.
  apply Z.eqb_neq in Hst. rewrite Hacc, Hnet, Hst, Hb. simpl.
  fold (field fields "name"). rewrite Hname. reflexivity.
Qed.

Lemma getRecentCommitsEmails_nameless_repository_witness :
  run (getRecentCommitsEmails Date_of octocat without_token)
      (example_net [nameless_repository])
  = (Ok [], [repos_request octocat without_token]).
Proof.
  apply (getRecentCommitsEmails_nameless_repository Date_of octocat without_token
           (example_net [nameless_repository])
           (mkResponse 200 EmptyString (Some (VArr [VObj [("id", VNum 1296269)]])))
           [("id", VNum 1296269)] []).
  - reflexivity.
  - split; [left; reflexivity | reflexivity].
  - discriminate.
  - reflexivity.
  - reflexivity.
Defined.

(** ** The requests of the whole call *)

Lemma githubEmail_requests_shape : forall new_Date opts (net : network) req,
  In req (requests (githubEmail new_Date opts) net) ->
  (exists id, who opts = ById id /\ req = user_by_id_request id opts)
  \/ (exists u, outcome (getUsername opts) net = Ok u /\ truthy u = true
                /\ request_of opts net u req).
Proof.
  intros new_Date opts net req Hin.
  rewrite requests_githubEmail in Hin. apply in_app_or in Hin as [Hin|Hin].
  - left. rewrite requests_getUsername in Hin.
    destruct (who opts) as [s|id]; [destruct Hin|].
    destruct (headers_accepted net (token opts)); [|destruct Hin].
    destruct Hin as [<-|[]]. exists id. split; reflexivity.
  - right. destruct (outcome (getUsername opts) net) as [u|e]; [|destruct Hin].
    destruct (truthy u) eqn:Ht; simpl in Hin; [|destruct Hin].
    exists u. split; [reflexivity|]. split; [exact Ht|].
    unfold request_of.
    apply in_app_or in Hin as [Hin|Hin].
    { rewrite requests_getGitHubEmail in Hin.
      destruct (truthy (opt_value (token opts))); [|destruct Hin].
      destruct (headers_accepted net (token opts)); [|destruct Hin].
      destruct Hin as [<-|[]]. left. split; reflexivity. }
    destruct (outcome (getGitHubEmail u opts) net); [|destruct Hin].
    apply in_app_or in Hin as [Hin|Hin].
    { rewrite requests_getNpmEmail in Hin. destruct Hin as [<-|[]].
      right. left. reflexivity. }
    destruct (outcome (getNpmEmail u) net); [|destruct Hin].
    apply in_app_or in Hin as [Hin|Hin].
    { rewrite requests_getRecentCommitsEmails in Hin.
      apply in_app_or in Hin as [Hin|Hin].
      - rewrite requests_getRepository in Hin.
        destruct (truthy (opt_value (repository opts))); [destruct Hin|].
        destruct (headers_accepted net (token opts)); [|destruct Hin].
        destruct Hin as [<-|[]]. right. right. left. split; reflexivity.
      - destruct (outcome (getRepository u opts) net) as [repo|] eqn:Hrepo;
          [|destruct Hin].
        destruct (truthy repo) eqn:Hr; [|destruct Hin].
        destruct (headers_accepted net (token opts)); [|destruct Hin].
        destruct Hin as [<-|[]]. right. right. right. left.
        exists repo. split; [reflexivity|]. split; [assumption | reflexivity]. }
    destruct (outcome (getRecentCommitsEmails new_Date u opts) net); [|destruct Hin].
    rewrite requests_getRecentActivityEmails in Hin.
    destruct (headers_accepted net (token opts)); [|destruct Hin].
    destruct Hin as [<-|[]].
    right. right. right. right. reflexivity.
Qed.

(** X7.  Whatever the call asks, the request to the registry carries no
    header, so the token is never sent there; every other request carries
    the GitHub headers: the Accept header, preceded by the Authorization
    header made of the token exactly when the token is a non-empty string. *)
Theorem githubEmail_headers :
  forall (new_Date : value -> option Z) (opts : GitHubEmailOpts) (net : network)
         (req : request),
    In req (requests (githubEmail new_Date opts) net) ->
    match url req with
    | NpmUser _ => headers req = []
    | _ =>
        headers req
        = match token opts with
          | Some (String c t) =>
              [("Authorization", "token " +++ String c t);
               ("Accept", "application/vnd.github.v3+json")]
          | _ => [("Accept", "application/vnd.github.v3+json")]
          end
    end.
Proof.
  intros new_Date opts net req Hin.
  assert (github_headers (token opts)
          = match token opts with
            | Some (String c t) =>
                [("Authorization", "token " +++ String c t);
                 ("Accept", "application/vnd.github.v3+json")]
            | _ => [("Accept", "application/vnd.github.v3+json")]
            end) as Hh.
  { unfold github_headers. destruct (token opts) as [[|c t]|]; reflexivity. }
  rewrite <- Hh.
  apply githubEmail_requests_shape in Hin
    as [(id & _ & ->)|(u & _ & _ & [[-> _]|[->|[[-> _]|[(repo & _ & _ & ->)| ->]]]])];
    reflexivity.
Qed.

Lemma githubEmail_headers_witness :
  headers (npm_request octocat) = []
  /\ headers (events_request octocat with_token)
     = [("Authorization", "token t0k3n"); ("Accept", "application/vnd.github.v3+json")].
Proof.
  split.
  - apply (githubEmail_headers Date_of with_token answers_all (npm_request octocat)).
    vm_compute. right. left. reflexivity.
  - apply (githubEmail_headers Date_of with_token answers_all
             (events_request octocat with_token)).
    vm_compute. do 4 right. left. reflexivity.
Defined.

(** X8.  A call issues at most one request per stage that applies: the id
    lookup for a call by id, the profile when the token is non-empty, the
    registry, the list of repositories when there is no usable override,
    the commits and the events; so never more than six, and never more than
    three for a call by username with a repository and without a token. *)
Theorem githubEmail_request_budget :
  forall (new_Date : value -> option Z) (opts : GitHubEmailOpts) (net : network),
    (List.length (requests (githubEmail new_Date opts) net) <= request_budget opts)%nat
    /\ (request_budget opts <= 6)%nat.
Proof.
  intros new_Date opts net. split.
  - rewrite requests_githubEmail, requests_getUsername. unfold request_budget.
    rewrite length_app.
    assert (List.length (match who opts with
                         | ByUsername _ => []
                         | ById id =>
                             if headers_accepted net (token opts)
                             then [user_by_id_request id opts] else []
                         end)
            <= match who opts with ById _ => 1 | ByUsername _ => 0 end)%nat as H0
      by (destruct (who opts); [|destruct (headers_accepted net (token opts))];
          simpl; lia).
    destruct (outcome (getUsername opts) net) as [u|e]; [|simpl; lia].
    destruct (negb (truthy u)); [simpl; lia|].
    rewrite length_app, requests_getGitHubEmail.
    assert (List.length (if truthy (opt_value (token opts))
                            && headers_accepted net (token opts)
                         then [users_request u opts] else [])
            <= (if truthy (opt_value (token opts)) then 1 else 0))%nat as H1
      by (destruct (truthy (opt_value (token opts)));
          [destruct (headers_accepted net (token opts))|]; simpl; lia).
    destruct (outcome (getGitHubEmail u opts) net); [|simpl; lia].
    rewrite length_app, requests_getNpmEmail.
    change (List.length [npm_request u]) with 1%nat.
    destruct (outcome (getNpmEmail u) net); [|simpl; lia].
    rewrite length_app, requests_getRecentCommitsEmails, length_app,
      requests_getRepository.
    assert (List.length (if truthy (opt_value (repository opts)) then []
                         else if headers_accepted net (token opts)
                              then [repos_request u opts] else [])
            <= (if truthy (opt_value (repository opts)) then 0 else 1))%nat as H2
      by (destruct (truthy (opt_value (repository opts)));
          [|destruct (headers_accepted net (token opts))]; simpl; lia).
    assert (List.length (match outcome (getRepository u opts) net with
                         | Ok repo =>
                             if truthy repo && headers_accepted net (token opts)
                             then [commits_request u repo opts] else []
                         | Throw _ => []
                         end) <= 1)%nat as H3.
    { destruct (outcome (getRepository u opts) net) as [repo|]; [|simpl; lia].
      destruct (truthy repo && headers_accepted net (token opts)); simpl; lia. }
    destruct (outcome (getRecentCommitsEmails new_Date u opts) net); [|simpl; lia].
    rewrite requests_getRecentActivityEmails.
    assert (List.length (if headers_accepted net (token opts)
                         then [events_request u opts] else []) <= 1)%nat as H4
      by (destruct (headers_accepted net (token opts)); simpl; lia).
    lia.
  - unfold request_budget.
    destruct (who opts), (truthy (opt_value (token opts))),
      (truthy (opt_value (repository opts))); simpl; lia.
Qed.

(** X9.  A call by username asks about that user only: every request it
    issues names the username of the options. *)
Theorem githubEmail_asks_about_username :
  forall (new_Date : value -> option Z) (opts : GitHubEmailOpts) (s : string)
         (net : network) (req : request),
    who opts = ByUsername s ->
    In req (requests (githubEmail new_Date opts) net) ->
    about (VStr s) (url req).
Proof.
  intros new_Date opts s net req Hwho Hin.
  apply githubEmail_requests_shape in Hin as [(id & Hid & _)|(u & Hu & _ & Hreq)].
  - congruence.
  - assert (u = VStr s) as ->.
    { unfold getUsername in Hu. rewrite Hwho in Hu. inversion Hu. reflexivity. }
    destruct Hreq as [[-> _]|[->|[[-> _]|[(repo & _ & _ & ->)| ->]]]]; reflexivity.
Qed.

Lemma githubEmail_asks_about_username_witness :
  about octocat (url (commits_request octocat (VStr "hello-world") with_token)).
Proof.
  apply (githubEmail_asks_about_username Date_of with_token "octocat" answers_all).
  - reflexivity.
  - vm_compute. do 3 right. left. reflexivity.
Defined.

(** X10.  A call by id that has asked the profile-by-id endpoint and got an
    answer that carries a login behaves, after that one request, as the call
    by that username with the same token and repository: the same outcome,
    and the same requests after the first. *)
Theorem githubEmail_by_id_as_by_username :
  forall (new_Date : value -> option Z) (opts : GitHubEmailOpts) (id : Z)
         (net : network) (r : response) (fields : list (string * value)) (login : string),
    who opts = ById id ->
    answered (getUsername opts) net (user_by_id_request id opts) r ->
    status r <> 404 ->
    body_json r = Some (VObj fields) ->
    field fields "login" = VStr login ->
    outcome (githubEmail new_Date opts) net
    = outcome (githubEmail new_Date (for_username opts login)) net
    /\ requests (githubEmail new_Date opts) net
       = user_by_id_request id opts
         :: requests (githubEmail new_Date (for_username opts login)) net.
Proof.
  intros new_Date opts id net r fields login Hwho [Hin Hnet] Hst Hb Hlogin.
  apply getUsername_asked in Hin. destruct Hin as [Hacc _].
  assert (outcome (getUsername opts) net = Ok (VStr login)) as Hu.
  { unfold outcome. rewrite (getUsername_asks id) by assumption.
    apply Z.eqb_neq in Hst.
    rewrite Hacc, Hnet, Hst, Hb. simpl. fold (field fields "login"). now rewrite Hlogin. }
  assert (outcome (getUsername (for_username opts login)) net = Ok (VStr login)) as Hu'
    by reflexivity.
  split.
  - rewrite !githubEmail_outcome, Hu, Hu'. reflexivity.
  - rewrite !requests_githubEmail, Hu, Hu', !requests_getUsername, Hwho, Hacc.
    reflexivity.
Qed.

Lemma githubEmail_by_id_as_by_username_witness :
  outcome (githubEmail Date_of by_id) answers_all
  = outcome (githubEmail Date_of without_token) answers_all
  /\ requests (githubEmail Date_of by_id) answers_all
     = user_by_id_request 583231 by_id
       :: requests (githubEmail Date_of without_token) answers_all.
Proof.
  apply (githubEmail_by_id_as_by_username Date_of by_id 583231 answers_all
           (mkResponse 200 EmptyString (Some (VObj [("login", VStr "octocat")])))
           [("login", VStr "octocat")] "octocat").
  - reflexivity.
  - split; [left; reflexivity | reflexivity].
  - discriminate.
  - reflexivity.
  - reflexivity.
Defined.

(** X11.  A call that returns has asked, in this order: the profile by id
    for a call by id; the profile of the user when the token is non-empty;
    the registry; the list of repositories when there is no usable
    override; the commits of the repository when one was found; and, last,
    the events. *)
Theorem githubEmail_request_order :
  forall (new_Date : value -> option Z) (opts : GitHubEmailOpts) (net : network)
         (res : GitHubEmailResult),
    outcome (githubEmail new_Date opts) net = Ok res ->
    exists u,
      outcome (getUsername opts) net = Ok u
      /\ truthy u = true
      /\ requests (githubEmail new_Date opts) net
         = match who opts with
           | ByUsername _ => []
           | ById id => [user_by_id_request id opts]
           end
           ++ (if truthy (opt_value (token opts)) then [users_request u opts] else [])
           ++ [npm_request u]
           ++ (if truthy (opt_value (repository opts)) then [] else [repos_request u opts])
           ++ match outcome (getRepository u opts) net with
              | Ok repo => if truthy repo then [commits_request u repo opts] else []
              | Throw _ => []
              end
           ++ [events_request u opts].
Proof.
  intros new_Date opts net res Hres.
  rewrite githubEmail_outcome in Hres. rewrite requests_githubEmail.
  destruct (outcome (getUsername opts) net) as [u|e]; [|discriminate].
  simpl in Hres. destruct (truthy u) eqn:Ht; [|discriminate]. simpl in Hres.
  exists u. split; [reflexivity|]. split; [exact Ht|]. simpl negb. cbv iota.
  destruct (outcome (getGitHubEmail u opts) net); [|discriminate]. simpl in Hres.
  destruct (outcome (getNpmEmail u) net); [|discriminate]. simpl in Hres.
  destruct (outcome (getRecentCommitsEmails new_Date u opts) net); [|discriminate].
  simpl in Hres.
  assert (headers_accepted net (token opts) = true) as Hacc.
  { unfold outcome in Hres. rewrite getRecentActivityEmails_asks in Hres.
    destruct (headers_accepted net (token opts)); [reflexivity | discriminate Hres]. }
  rewrite requests_getUsername, requests_getGitHubEmail, requests_getNpmEmail,
    requests_getRecentCommitsEmails, requests_getRepository,
    requests_getRecentActivityEmails, Hacc.
  rewrite andb_true_r.
  assert (forall repo : value, truthy repo && true = truthy repo) as Hr
    by (intros repo; apply andb_true_r).
  destruct (outcome (getRepository u opts) net) as [repo|e'];
    [rewrite Hr|]; rewrite <- !app_assoc; reflexivity.
Qed.

Lemma githubEmail_request_order_witness :
  requests (githubEmail Date_of with_token) answers_all
  = [users_request octocat with_token;
     npm_request octocat;
     repos_request octocat with_token;
     commits_request octocat (VStr "hello-world") with_token;
     events_request octocat with_token].
Proof.
  destruct (githubEmail_request_order Date_of with_token answers_all
              {| github := VStr "octocat@github.com";
                 npm := VNull;
                 recentCommits :=
                   [{| name := VStr "A"; email := VStr "a@example.com" |};
                    {| name := VStr "B"; email := VStr "b@example.com" |};
                    {| name := VStr "D"; email := VStr "d@example.com" |};
                    {| name := VStr "C"; email := VStr "c@example.com" |}];
                 recentActivity := ["x"; "x"] |} eq_refl) as (u & Hu & _ & Hreq).
  rewrite Hreq. inversion Hu. reflexivity.
Defined.

(** X12.  The call stops at the first lookup that throws: the exception of
    the profile lookup, of the registry lookup or of the commit lookup is
    the exception of the call, and the lookups that come after it in the
    source ask nothing. *)
Theorem githubEmail_stops_at_first_failure :
  forall (new_Date : value -> option Z) (opts : GitHubEmailOpts) (net : network)
         (u : value) (e : error),
    outcome (getUsername opts) net = Ok u -> truthy u = true ->
    (outcome (getGitHubEmail u opts) net = Throw e ->
     run (githubEmail new_Date opts) net
     = (Throw e, requests (getUsername opts) net ++ requests (getGitHubEmail u opts) net))
    /\
    (forall g,
       outcome (getGitHubEmail u opts) net = Ok g ->
       outcome (getNpmEmail u) net = Throw e ->
       run (githubEmail new_Date opts) net
       = (Throw e,
          requests (getUsername opts) net ++ requests (getGitHubEmail u opts) net
          ++ [npm_request u]))
    /\
    (forall g n,
       outcome (getGitHubEmail u opts) net = Ok g ->
       outcome (getNpmEmail u) net = Ok n ->
       outcome (getRecentCommitsEmails new_Date u opts) net = Throw e ->
       run (githubEmail new_Date opts) net
       = (Throw e,
          requests (getUsername opts) net ++ requests (getGitHubEmail u opts) net
          ++ [npm_request u] ++ requests (getRecentCommitsEmails new_Date u opts) net)).
Proof.
  intros new_Date opts net u e Hu Ht.
  assert (forall A (m : M A), run m net = (outcome m net, requests m net)) as Hrun.
  { intros A m. unfold outcome, requests. now destruct (run m net). }
  split; [|split].
  - intros Hg. rewrite Hrun, githubEmail_outcome, requests_githubEmail, Hu. simpl.
    rewrite Ht, Hg. simpl. now rewrite app_nil_r.
  - intros g Hg Hn. rewrite Hrun, githubEmail_outcome, requests_githubEmail, Hu. simpl.
    rewrite Ht, Hg. simpl. rewrite Hn, requests_getNpmEmail. simpl. reflexivity.
  - intros g n Hg Hn Hc.
    rewrite Hrun, githubEmail_outcome, requests_githubEmail, Hu. simpl.
    rewrite Ht, Hg. simpl. rewrite Hn, requests_getNpmEmail. simpl.
    rewrite Hc. simpl. now rewrite app_nil_r.
Qed.

(** The registry answers a page that is not JSON: the call throws after
    the request to the registry, and neither repositories, commits nor
    events are asked for. *)
Lemma githubEmail_stops_at_first_failure_witness :
  run (githubEmail Date_of with_token) registry_down
  = (Throw SyntaxError, [users_request octocat with_token; npm_request octocat]).
Proof.
  destruct (githubEmail_stops_at_first_failure Date_of with_token registry_down
              octocat SyntaxError eq_refl eq_refl) as (_ & H & _).
  apply (H (VStr "octocat@github.com")); reflexivity.
Defined.

(** ** The values of the event scan *)

Lemma length_email_key : String.length email_key = 9%nat.
Proof. reflexivity. Qed.

Section ScanValues.
Local Opaque email_key.

Lemma Emails_values : forall s vs,
  Emails s vs ->
  Forall (fun v => quote_free v
                   /\ exists pre post, s = pre +++ email_key +++ v +++ String dquote post) vs
  /\ (10 * List.length vs + total_length vs <= String.length s)%nat.
Proof.
  intros s vs H. induction H as [s Hno | g v r vs Hq Hleft Hr [IHf IHl]].
  - split; [constructor | simpl; lia].
  - split.
    + constructor.
      * split; [assumption|]. exists g, r. reflexivity.
      * eapply Forall_impl; [|exact IHf]. simpl.
        intros w [Hw (pre & post & Hpre)]. split; [assumption|].
        exists (g +++ email_key +++ v +++ String dquote pre), post.
        rewrite Hpre, !append_assoc. simpl. reflexivity.
    + rewrite !length_append, length_email_key. simpl String.length.
      simpl List.length. simpl total_length. lia.
Qed.
End ScanValues.

(** X13.  Whatever the text, the scan returns, and every value it returns
    stands in the text between the key and a closing quote and contains no
    quote itself; an occurrence takes at least ten characters besides its
    value, so ten times the number of values plus their lengths is at most
    the length of the text. *)
Theorem scanEmails_values :
  forall (text : string),
    exists vs,
      scanEmails text = Ok vs
      /\ Forall (fun v => quote_free v
                          /\ exists pre post,
                               text = pre +++ email_key +++ v +++ String dquote post) vs
      /\ (10 * List.length vs + total_length vs <= String.length text)%nat.
Proof.
  intros text. destruct (scanEmails_spec text) as (vs & Hscan & Hem).
  exists vs. split; [assumption|]. now apply Emails_values.
Qed.

(** ** The aggregation: which entries count *)

Lemma reduce_app : forall A B (f : B -> A -> result B) l1 l2 acc,
  reduce f (l1 ++ l2) acc = (acc' <~ reduce f l1 acc ;; reduce f l2 acc').
Proof.
  intros A B f. induction l1 as [|x l1 IH]; intros l2 acc; simpl; [reflexivity|].
  destruct (f acc x) as [acc'|e]; simpl; [apply IH | reflexivity].
Qed.

Lemma record_id_known : forall m i,
  (truthy (id_name i) = true -> Map_has m (id_name i) = true) ->
  record_id m i = m.
Proof.
  intros m i H. unfold record_id.
  destruct (truthy (id_name i)); simpl; [|reflexivity].
  rewrite H by reflexivity. reflexivity.
Qed.

Lemma record_all_known : forall ids m,
  (forall i, In i ids -> truthy (id_name i) = true -> Map_has m (id_name i) = true) ->
  fold_left record_id ids m = m.
Proof.
  induction ids as [|i ids IH]; intros m H; simpl; [reflexivity|].
  rewrite record_id_known by (apply H; left; reflexivity).
  apply IH. intros j Hj. apply H. right. assumption.
Qed.

(** X14.  The aggregation returns a result on every array in which no
    entry is null, no commit, author or committer is null, and no date of an
    author or committer is an object with a toString key of its own (or an
    array that holds one).  It throws a TypeError on every array that has a
    null entry, commit, author or committer, and it never throws anything
    else.  A date that has no primitive makes it throw when the identity is
    recorded, and is not looked at when the identity has no name.  Entries
    that are not objects, and missing commit, author or committer objects,
    are read as empty. *)
Theorem aggregate_returns_on_shaped :
  forall (new_Date : value -> option Z) (items : list value),
    (forallb readable_commit items = true ->
     exists out, aggregate new_Date items = Ok out)
    /\ (forallb shaped_commit items = false ->
        aggregate new_Date items = Throw TypeError)
    /\ (forall e, aggregate new_Date items = Throw e -> e = TypeError)
    /\ aggregate new_Date
         [authored_by (VObj [("name", VStr "A"); ("date", VObj [("toString", VNull)])])]
       = Throw TypeError
    /\ aggregate new_Date [authored_by (VObj [("date", VObj [("toString", VNull)])])]
       = Ok []
    /\ (forall fields, assoc "commit" fields = None -> readable_commit (VObj fields) = true)
    /\ (forall fields commit,
          assoc "commit" fields = Some (VObj commit) ->
          assoc "author" commit = None -> assoc "committer" commit = None ->
          readable_commit (VObj fields) = true)
    /\ (forall n, readable_commit (VNum n) = true)
    /\ (forall s, readable_commit (VStr s) = true).
Proof.
  intros new_Date items.
  split; [|split; [|split; [|split; [|split; [|split; [|split; [|split]]]]]]].
  - intros H. now apply aggregate_returns.
  - intros H. now apply aggregate_unshaped.
  - intros e H. eapply aggregate_throws; eassumption.
  - reflexivity.
  - reflexivity.
  - intros fields H. unfold readable_commit, shaped_commit, convertible_dates, prop, field.
    rewrite H. reflexivity.
  - intros fields commit H Ha Hc.
    unfold readable_commit, shaped_commit, convertible_dates, prop, field.
    rewrite H. simpl. unfold field. rewrite Ha, Hc. reflexivity.
  - reflexivity.
  - reflexivity.
Qed.

Lemma aggregate_returns_on_shaped_witness :
  (exists out, aggregate Date_of [bare_entry; VNum 7; unnamed_author] = Ok out)
  /\ aggregate Date_of [bare_entry; VNull] = Throw TypeError.
Proof.
  destruct (aggregate_returns_on_shaped Date_of [bare_entry; VNum 7; unnamed_author])
    as (H1 & _).
  destruct (aggregate_returns_on_shaped Date_of [bare_entry; VNull]) as (_ & H2 & _).
  split; [apply H1 | apply H2]; reflexivity.
Defined.

(** X15.  An entry adds nothing when each of its two identities has a
    falsy name (missing, null or empty) or a name the map already holds
    when the entry is met: removing the entry from the array leaves the
    outcome of the aggregation unchanged. *)
Theorem aggregate_entry_adds_nothing :
  forall (new_Date : value -> option Z) (before after : list value) (x : value)
         (m : CommitsMap) (ids : list CommitIdentity),
    commitsEmailsMap new_Date before = Ok m ->
    commit_identities new_Date x = Ok ids ->
    (forall i, In i ids -> truthy (id_name i) = true -> Map_has m (id_name i) = true) ->
    aggregate new_Date (before ++ x :: after) = aggregate new_Date (before ++ after).
Proof.
  intros new_Date before after x m ids Hm Hx Hknown.
  unfold aggregate, commitsEmailsMap in *.
  rewrite !reduce_app, Hm. simpl.
  rewrite (reducer_identities _ _ _ _ Hx). simpl.
  rewrite record_all_known by assumption. reflexivity.
Qed.

Lemma aggregate_entry_adds_nothing_witness :
  aggregate Date_of (three_dates ++ bare_entry :: tied_dates)
  = aggregate Date_of (three_dates ++ tied_dates)
  /\ aggregate Date_of (three_dates ++ unnamed_author :: tied_dates)
     = aggregate Date_of (three_dates ++ tied_dates)
  /\ aggregate Date_of (three_dates
                        ++ authored_by (person "A" "other@example.com" "2019-01-01T00:00:00Z")
                        :: tied_dates)
     = aggregate Date_of (three_dates ++ tied_dates).
Proof.
  split; [|split].
  - eapply (aggregate_entry_adds_nothing Date_of three_dates tied_dates bare_entry).
    + reflexivity.
    + reflexivity.
    + intros i [<-|[<-|[]]]; discriminate.
  - eapply (aggregate_entry_adds_nothing Date_of three_dates tied_dates unnamed_author).
    + reflexivity.
    + reflexivity.
    + intros i [<-|[<-|[]]]; discriminate.
  - eapply (aggregate_entry_adds_nothing Date_of three_dates tied_dates).
    + reflexivity.
    + reflexivity.
    + intros i [<-|[<-|[]]]; [reflexivity | discriminate].
Defined.

(** ** The aggregation: size and names of the output *)

Lemma record_identity_grows : forall new_Date acc n e d acc',
  record_identity new_Date acc n e d = Ok acc' ->
  (List.length acc' <= S (List.length acc))%nat
  /\ (Forall named acc -> Forall named acc').
Proof.
  intros new_Date acc n e d acc'. unfold record_identity.
  destruct (truthy n) eqn:Hn; simpl.
  - destruct (Map_has acc n) eqn:Hh; simpl.
    + intros H; inversion H; subst. split; [lia | trivial].
    + destruct (construct_Date new_Date d) as [date|]; simpl; [|intros H; discriminate H].
      intros H; inversion H; subst; clear H.
      rewrite Map_set_fresh by assumption. rewrite length_app. simpl.
      split; [lia|]. intros HF. apply Forall_app. split; [assumption|].
      constructor; [exact Hn | constructor].
  - intros H; inversion H; subst. split; [lia | trivial].
Qed.

Lemma reducer_grows : forall new_Date acc x acc',
  reducer new_Date acc x = Ok acc' ->
  (List.length acc' <= 2 + List.length acc)%nat
  /\ (Forall named acc -> Forall named acc').
Proof.
  intros new_Date acc x acc'. unfold reducer.
  repeat match goal with
         | |- context [rbind (get_default ?v ?k) _] =>
             destruct (get_default v k); simpl; [|intros H; discriminate H]
         | |- context [rbind (get ?v ?k) _] =>
             destruct (get v k); simpl; [|intros H; discriminate H]
         end.
  match goal with
  | |- context [rbind (record_identity ?nd ?a ?n ?e ?d) _] =>
      destruct (record_identity nd a n e d) as [acc1|] eqn:E1; simpl;
        [|intros H; discriminate H]
  end.
  match goal with
  | |- context [rbind (record_identity ?nd ?a ?n ?e ?d) _] =>
      destruct (record_identity nd a n e d) as [acc2|] eqn:E2; simpl;
        [|intros H; discriminate H]
  end.
  intros H; inversion H; subst; clear H.
  apply record_identity_grows in E1 as [L1 F1].
  apply record_identity_grows in E2 as [L2 F2].
  split; [lia | auto].
Qed.

Lemma reduce_grows : forall new_Date items acc m,
  reduce (reducer new_Date) items acc = Ok m ->
  (List.length m <= List.length acc + 2 * List.length items)%nat
  /\ (Forall named acc -> Forall named m).
Proof.
  intros new_Date. induction items as [|x items IH]; intros acc m H; simpl in H.
  - inversion H; subst. split; [lia | trivial].
  - destruct (reducer new_Date acc x) as [acc'|] eqn:E; simpl in H; [|discriminate H].
    apply reducer_grows in E as [L1 F1].
    apply IH in H as [L2 F2].
    split; [simpl; lia | auto].
Qed.

(** X16.  Whenever the aggregation returns, its output has at most two
    entries per commit of the array, and the name of every entry is truthy:
    no entry has a missing, null or empty name. *)
Theorem aggregate_output_bound :
  forall (new_Date : value -> option Z) (items : list value) (out : RecentCommitsResult),
    aggregate new_Date items = Ok out ->
    (List.length out <= 2 * List.length items)%nat
    /\ Forall (fun entry => truthy (name entry) = true) out.
Proof.
  intros new_Date items out H.
  unfold aggregate, commitsEmailsMap in H.
  destruct (reduce (reducer new_Date) items []) as [m|] eqn:Hm; simpl in H;
    [|discriminate].
  unfold recentCommitsResult in H.
  destruct (Array_sort byDate (Map_values m)) as [sorted|] eqn:Hs; [|discriminate].
  inversion H; subst out. apply Array_sort_perm in Hs.
  apply reduce_grows in Hm as [Hl HF]. simpl in Hl.
  split.
  - rewrite length_map, (Permutation_length Hs). unfold Map_values. rewrite length_map.
    exact Hl.
  - specialize (HF (Forall_nil _)).
    apply Forall_forall. intros entry Hin.
    apply in_map_iff in Hin as (e & <- & He).
    apply (Permutation_in _ Hs) in He.
    unfold Map_values in He. apply in_map_iff in He as ([k e'] & <- & Hke).
    rewrite Forall_forall in HF. exact (HF _ Hke).
Qed.

Lemma aggregate_output_bound_witness :
  exists out,
    aggregate Date_of tied_dates = Ok out
    /\ (List.length out <= 2 * List.length tied_dates)%nat
    /\ Forall (fun entry => truthy (name entry) = true) out.
Proof.
  eexists. split; [reflexivity|].
  apply (aggregate_output_bound Date_of tied_dates). reflexivity.
Defined.

(** ** The sort leaves a newest-first map as it is *)

Section StableUnique.
Context {A : Type} (key : A -> Z).

Lemma filter_key_head : forall a l t,
  StronglySorted (desc key) (a :: l) -> t <> key a ->
  filter (has_key key t) (a :: l) = filter (has_key key t) l.
Proof.
  intros a l t _ Ht. simpl. unfold has_key at 1.
  destruct (Z.eqb_spec (key a) t); [congruence | reflexivity].
Qed.

Lemma filter_has_key_in : forall t x l,
  In x (filter (has_key key t) l) -> In x l /\ key x = t.
Proof.
  intros t x l H. apply filter_In in H as [H1 H2].
  split; [assumption|]. unfold has_key in H2. now apply Z.eqb_eq.
Qed.

Lemma filter_key_cons : forall t a l,
  filter (has_key key t) (a :: l)
  = if key a =? t then a :: filter (has_key key t) l else filter (has_key key t) l.
Proof. reflexivity. Qed.

(** Two descending lists with the same elements of each key, in the same
    order, are the same list. *)
Lemma stable_desc_unique : forall l1 l2,
  StronglySorted (desc key) l1 -> StronglySorted (desc key) l2 ->
  (forall t, filter (has_key key t) l1 = filter (has_key key t) l2) ->
  l1 = l2.
Proof.
  induction l1 as [|a l1 IH]; intros l2 H1 H2 Hf.
  - destruct l2 as [|b l2]; [reflexivity|].
    specialize (Hf (key b)). rewrite filter_key_cons, Z.eqb_refl in Hf. discriminate.
  - destruct l2 as [|b l2].
    + specialize (Hf (key a)). rewrite filter_key_cons, Z.eqb_refl in Hf. discriminate.
    + inversion H1 as [|? ? H1' Ha]; subst. inversion H2 as [|? ? H2' Hb]; subst.
      assert (key b <= key a) as Hba.
      { pose proof (Hf (key b)) as Hfb. rewrite !filter_key_cons, Z.eqb_refl in Hfb.
        destruct (Z.eqb_spec (key a) (key b)) as [E|E]; [lia|].
        assert (In b (filter (has_key key (key b)) l1)) as Hin
          by (rewrite Hfb; left; reflexivity).
        apply filter_has_key_in in Hin as [Hin _].
        rewrite Forall_forall in Ha. exact (Ha b Hin). }
      assert (key a <= key b) as Hab.
      { pose proof (Hf (key a)) as Hfa. rewrite !filter_key_cons, Z.eqb_refl in Hfa.
        destruct (Z.eqb_spec (key b) (key a)) as [E|E]; [lia|].
        assert (In a (filter (has_key key (key a)) l2)) as Hin
          by (rewrite <- Hfa; left; reflexivity).
        apply filter_has_key_in in Hin as [Hin _].
        rewrite Forall_forall in Hb. exact (Hb a Hin). }
      assert (key b = key a) as Hk by lia.
      pose proof (Hf (key a)) as Hfa.
      rewrite !filter_key_cons, Hk, Z.eqb_refl in Hfa.
      inversion Hfa as [[Heq Htail]]. subst b. f_equal.
      apply IH; try assumption.
      intros t. destruct (Z.eq_dec t (key a)) as [->|Hne]; [exact Htail|].
      rewrite <- (filter_key_head a l1 t H1 Hne), <- (filter_key_head a l2 t H2 Hne).
      apply Hf.
Qed.
End StableUnique.

(** X17.  When every identity of the map has a valid date and the map is
    already in descending order of the timestamps (a newest-first history),
    the sort changes nothing: the output lists the identities in their order
    of insertion. *)
Theorem recentCommitsResult_keeps_newest_first :
  forall (m : CommitsMap),
    Forall dated (Map_values m) ->
    StronglySorted (fun a b => time_of b <= time_of a) (Map_values m) ->
    recentCommitsResult m = Ok (map strip (Map_values m)).
Proof.
  intros m Hd Hs. unfold recentCommitsResult.
  destruct (Array_sort_spec byDate time_of dated byDate_key (Map_values m) Hd)
    as (out & Hsort & Hperm & Hsorted & Hst).
  rewrite Hsort. do 2 f_equal.
  apply (stable_desc_unique time_of); assumption.
Qed.

Lemma recentCommitsResult_keeps_newest_first_witness :
  recentCommitsResult newest_first_map
  = Ok [{| name := VStr "B"; email := VStr "b@example.com" |};
        {| name := VStr "C"; email := VStr "c@example.com" |};
        {| name := VStr "A"; email := VStr "a@example.com" |}].
Proof.
  apply (recentCommitsResult_keeps_newest_first newest_first_map).
  - repeat constructor; discriminate.
  - repeat constructor; unfold time_of; simpl; lia.
Defined.

(** ** Where the exceptions of a call come from *)

Lemma AV_never : forall A (net : network) e (m : M A), never_throws e m -> avoids net e m.
Proof. intros A net e m H log. apply H. Qed.

Lemma AV_bind : forall A B (net : network) e (m : M A) (k : A -> M B),
  avoids net e m -> (forall a, avoids net e (k a)) -> avoids net e (bind m k).
Proof.
  intros A B net e m k Hm Hk log. unfold bind.
  specialize (Hm log). destruct (m net log) as [[a|e'] l1]; simpl in *.
  - apply Hk.
  - intros H. apply Hm. inversion H. reflexivity.
Qed.

(** After a fetch, the continuation runs on the answer of the network. *)
Lemma AV_fetch_bind : forall B (net : network) e u h (k : response -> M B),
  (net (mkRequest u h) = None -> e <> NetworkError) ->
  (forall r, net (mkRequest u h) = Some r -> avoids net e (k r)) ->
  avoids net e (bind (fetch u h) k).
Proof.
  intros B net e u h k Hnone Hsome log. unfold bind, fetch.
  destruct (net (mkRequest u h)) as [r|] eqn:Hnet; simpl.
  - apply Hsome. reflexivity.
  - intros H. apply Hnone; [reflexivity | now inversion H].
Qed.

Lemma AV_json : forall (net : network) e r,
  (body_json r = None -> e <> SyntaxError) -> avoids net e (json r).
Proof.
  intros net e r H log. unfold json.
  destruct (body_json r); simpl; [discriminate|].
  intros E. apply H; [reflexivity | now inversion E].
Qed.

(** A lookup that asks once, returns on a 404 and otherwise parses the body
    and goes on without asking. *)
Lemma AV_lookup : forall B (net : network) e u h (on404 : M B) (k : value -> M B),
  (net (mkRequest u h) = None -> e <> NetworkError) ->
  (forall r, net (mkRequest u h) = Some r -> status r <> 404 ->
             body_json r = None -> e <> SyntaxError) ->
  never_throws e on404 ->
  (forall v, never_throws e (k v)) ->
  avoids net e (bind (fetch u h) (fun response =>
                  if status response =? 404 then on404
                  else bind (json response) k)).
Proof.
  intros B net e u h on404 k Hnone Hjson H404 Hk.
  apply AV_fetch_bind; [assumption|]. intros r Hr.
  destruct (Z.eqb_spec (status r) 404) as [Hst|Hst]; [now apply AV_never|].
  apply AV_bind; [apply AV_json; now apply Hjson|].
  intros v. now apply AV_never.
Qed.

Section ErrorCauses.
Variable net : network.
Variable e : error.
Hypothesis not_type : e <> TypeError.
Hypothesis network_cause : e = NetworkError -> always_answers net.
Hypothesis syntax_cause : e = SyntaxError -> answers_json net.

Lemma cause_none : forall req, net req = None -> e <> NetworkError.
Proof. intros req Hnone He. exact (network_cause He req Hnone). Qed.

Lemma cause_json : forall req r,
  (forall u, url req <> Events u) ->
  net req = Some r -> status r <> 404 -> body_json r = None -> e <> SyntaxError.
Proof.
  intros req r Hu Hr Hst Hb He.
  destruct (syntax_cause He req r Hr Hu) as [H|H]; contradiction.
Qed.

Lemma AV_getUsername : forall opts, avoids net e (getUsername opts).
Proof.
  intros opts. unfold getUsername. destruct (who opts) as [s|id].
  - apply AV_never, NT_ret.
  - apply AV_bind; [apply AV_never, NT_getGitHubAPIHeaders; assumption|]. intros h.
    apply AV_lookup.
    + apply cause_none.
    + intros r Hr Hst Hb.
    apply (cause_json _ r) with (2 := Hr); [discriminate | assumption | assumption].
    + apply NT_ret.
    + intros v. apply NT_lift. intros H. apply get_error in H. congruence.
Qed.

Lemma AV_getGitHubEmail : forall u opts, avoids net e (getGitHubEmail u opts).
Proof.
  intros u opts. unfold getGitHubEmail.
  destruct (negb (truthy (opt_value (token opts)))); [apply AV_never, NT_ret|].
  apply AV_bind; [apply AV_never, NT_getGitHubAPIHeaders; assumption|]. intros h.
  apply AV_lookup.
  - apply cause_none.
  - intros r Hr Hst Hb.
    apply (cause_json _ r) with (2 := Hr); [discriminate | assumption | assumption].
  - apply NT_ret.
  - intros v. apply NT_bind; [|intros; apply NT_ret].
    apply NT_lift. intros H. apply get_error in H. congruence.
Qed.

Lemma AV_getNpmEmail : forall u, avoids net e (getNpmEmail u).
Proof.
  intros u. unfold getNpmEmail. apply AV_lookup.
  - apply cause_none.
  - intros r Hr Hst Hb.
    apply (cause_json _ r) with (2 := Hr); [discriminate | assumption | assumption].
  - apply NT_ret.
  - intros v. apply NT_bind; [|intros; apply NT_ret].
    apply NT_lift. intros H. apply get_error in H. congruence.
Qed.

Lemma AV_getRepository : forall u opts, avoids net e (getRepository u opts).
Proof.
  intros u opts. unfold getRepository.
  destruct (truthy (opt_value (repository opts))); [apply AV_never, NT_ret|].
  apply AV_bind; [apply AV_never, NT_getGitHubAPIHeaders; assumption|]. intros h.
  apply AV_lookup.
  - apply cause_none.
  - intros r Hr Hst Hb.
    apply (cause_json _ r) with (2 := Hr); [discriminate | assumption | assumption].
  - apply NT_ret.
  - intros v. destruct v as [| | | | |[|x rest]|]; try apply NT_ret.
    apply NT_lift. intros H. apply get_error in H. congruence.
Qed.

Lemma AV_getRecentCommitsEmails : forall new_Date u opts,
  avoids net e (getRecentCommitsEmails new_Date u opts).
Proof.
  intros new_Date u opts. unfold getRecentCommitsEmails.
  apply AV_bind; [apply AV_getRepository|]. intros repo.
  destruct (negb (truthy repo)); [apply AV_never, NT_ret|].
  apply AV_bind; [apply AV_never, NT_getGitHubAPIHeaders; assumption|]. intros h.
  apply AV_lookup.
  - apply cause_none.
  - intros r Hr Hst Hb.
    apply (cause_json _ r) with (2 := Hr); [discriminate | assumption | assumption].
  - apply NT_ret.
  - intros v. destruct v as [| | | | |[|x rest]|]; try apply NT_ret.
    apply NT_lift. intros H. apply aggregate_throws in H. congruence.
Qed.

Lemma AV_getRecentActivityEmails : forall u opts,
  avoids net e (getRecentActivityEmails u opts).
Proof.
  intros u opts. unfold getRecentActivityEmails.
  apply AV_bind; [apply AV_never, NT_getGitHubAPIHeaders; assumption|]. intros h.
  apply AV_fetch_bind; [apply cause_none|]. intros r Hr.
  destruct (status r =? 404); [apply AV_never, NT_ret|].
  apply AV_never, NT_lift.
  destruct (scanEmails_spec (body_text r)) as (vs & -> & _). discriminate.
Qed.
End ErrorCauses.

(** X18.  The exceptions of a call.  A call throws nothing but the
    user-not-found error, a TypeError, a SyntaxError or a NetworkError.
    It throws a NetworkError only if some request gets no answer, and a
    SyntaxError only if some answer other than a 404 has a body that is not
    JSON, the answer of the events endpoint apart, which is read as text. *)
Theorem githubEmail_exceptions :
  forall (new_Date : value -> option Z) (opts : GitHubEmailOpts) (net : network)
         (e : error),
    outcome (githubEmail new_Date opts) net = Throw e ->
    (e = UserNotFoundError \/ e = TypeError \/ e = SyntaxError \/ e = NetworkError)
    /\ (always_answers net -> e <> NetworkError)
    /\ (answers_json net -> e <> SyntaxError).
Proof.
  intros new_Date opts net e He.
  assert (forall e',
            e' <> TypeError -> e' <> UserNotFoundError ->
            (e' = NetworkError -> always_answers net) ->
            (e' = SyntaxError -> answers_json net) ->
            outcome (githubEmail new_Date opts) net <> Throw e') as Hav.
  { intros e' Ht Hu Hn Hs. unfold outcome, run.
    assert (avoids net e' (githubEmail new_Date opts)) as H; [|apply H].
    unfold githubEmail.
    apply AV_bind; [now apply AV_getUsername|]. intros username.
    destruct (negb (truthy username)); [apply AV_never, NT_throw; congruence|].
    apply AV_bind; [now apply AV_getGitHubEmail|]. intros g.
    apply AV_bind; [now apply AV_getNpmEmail|]. intros n.
    apply AV_bind; [now apply AV_getRecentCommitsEmails|]. intros c.
    apply AV_bind; [now apply AV_getRecentActivityEmails|]. intros a.
    apply AV_never, NT_ret. }
  split; [|split].
  - destruct e; auto.
    exfalso. apply (Hav OutOfFuel); try discriminate. exact He.
  - intros Hnet ->. apply (Hav NetworkError); try discriminate; auto.
  - intros Hjson ->. apply (Hav SyntaxError); try discriminate; auto.
Qed.

Lemma registry_down_always_answers : always_answers registry_down.
Proof. intros [u h]. unfold registry_down, answers_all. simpl. destruct u; discriminate. Defined.

(** The registry answers everything, one page not being JSON: the
    SyntaxError the call throws is not a NetworkError. *)
Lemma githubEmail_exceptions_witness :
  SyntaxError <> NetworkError
  /\ (SyntaxError = UserNotFoundError \/ SyntaxError = TypeError
      \/ SyntaxError = SyntaxError \/ SyntaxError = NetworkError).
Proof.
  destruct (githubEmail_exceptions Date_of with_token registry_down SyntaxError eq_refl)
    as (H1 & H2 & _).
  split; [apply H2; exact registry_down_always_answers | exact H1].
Defined.

(** X19.  What decides whether an endpoint is asked.  The profile of the
    user is asked only with a non-empty token; the list of repositories only
    when the override is missing or empty; and the commits only of a
    repository with a truthy name, which is the override whenever the
    override is non-empty. *)
Theorem githubEmail_conditional_requests :
  forall (new_Date : value -> option Z) (opts : GitHubEmailOpts) (net : network)
         (req : request),
    In req (requests (githubEmail new_Date opts) net) ->
    (forall x, url req = Users x -> exists t, token opts = Some t /\ t <> EmptyString)
    /\ (forall x, url req = Repos x ->
                  repository opts = None \/ repository opts = Some EmptyString)
    /\ (forall x repo, url req = Commits x repo ->
                       truthy repo = true
                       /\ forall name, repository opts = Some name ->
                                       name <> EmptyString -> repo = VStr name).
Proof.
  intros new_Date opts net req Hin.
  assert (forall o, truthy (opt_value o) = true -> exists t, o = Some t /\ t <> EmptyString)
    as Htruthy.
  { intros [[|c t]|] H; try discriminate. eexists. split; [reflexivity | discriminate]. }
  assert (forall o, truthy (opt_value o) = false -> o = None \/ o = Some EmptyString)
    as Hfalsy.
  { intros [[|c t]|] H; try discriminate; auto. }
  apply githubEmail_requests_shape in Hin
    as [(id & _ & ->)
       |(u & _ & _ & [[-> Ht]|[->|[[-> Ho]|[(repo & Hrepo & Hr & ->)| ->]]]])];
    (split; [|split]); try (intros; discriminate).
  - intros x _. now apply Htruthy.
  - intros x _. now apply Hfalsy.
  - intros x repo' Hurl. inversion Hurl; subst. split; [assumption|].
    intros name Hname Hne. rewrite getRepository_outcome, Hname in Hrepo.
    destruct name; [congruence|]. simpl in Hrepo. now inversion Hrepo.
Qed.

Lemma githubEmail_conditional_requests_witness :
  (exists t, token with_token = Some t /\ t <> EmptyString)
  /\ (repository with_token = None \/ repository with_token = Some EmptyString)
  /\ truthy (VStr "hello-world") = true.
Proof.
  destruct (githubEmail_conditional_requests Date_of with_token answers_all
              (users_request octocat with_token)) as (H1 & _).
  { vm_compute. left. reflexivity. }
  destruct (githubEmail_conditional_requests Date_of with_token answers_all
              (repos_request octocat with_token)) as (_ & H2 & _).
  { vm_compute. do 2 right. left. reflexivity. }
  destruct (githubEmail_conditional_requests Date_of with_token answers_all
              (commits_request octocat (VStr "hello-world") with_token)) as (_ & _ & H3).
  { vm_compute. do 3 right. left. reflexivity. }
  split; [apply (H1 octocat); reflexivity|].
  split; [apply (H2 octocat); reflexivity|].
  apply (H3 octocat (VStr "hello-world")). reflexivity.
Defined.
